(** * The CV website's client-side logic (assets/js/main.js)

    A shallow embedding of the classes of [main.js] that carry logic of
    their own:

    - [CarouselManager]: the view window of a carousel (current index,
      items per view, the transform and the button states written to
      the DOM);
    - [CVWebsite]: the choice of the default language and the loading
      of a language's content document through the cache, the embedded
      table and the network, with the fallback to English; further the
      current section, the main-page test, language switching, the
      reload of detail pages and the meta description;
    - the click and resize listeners that [initializeCarousel]
      registers, the arrow keys of the language selector
      ([AccessibilityManager]) and the prefetch links
      ([PerformanceManager]).

    JavaScript numbers that hold counts and pixel widths are integers
    here ([Z]); the percentage of the transform is computed as
    JavaScript computes it, in binary64 floating point ([float]).  JS
    objects used as maps are [gmap]s with string keys. *)

From Stdlib Require Import ZArith QArith Qabs Lia List Bool Ascii String.
From Stdlib Require Uint63 FloatOps SpecFloat.
From Stdlib Require Import PrimFloat.
From stdpp Require Import base option gmap strings.

Local Open Scope Z_scope.

(** ** CarouselManager *)

Module Carousel.

(** The carousel's DOM element, as far as the manager reads and writes
    it: the number of [.carousel-item] descendants
    ([querySelectorAll('.carousel-item').length]) and the percentage
    [p] of [style.transform = translateX(p%)]. *)
Record Element : Type := mkElement {
  items_length : Z;
  translateX : PrimFloat.float
}.

(** A prev/next button: only its [disabled] property is touched. *)
Record Button : Type := mkButton {
  disabled : bool
}.

(** The [carouselData] object built by [initializeCarousel]. *)
Record CarouselData : Type := mkCarouselData {
  element : Element;
  prevBtn : Button;
  nextBtn : Button;
  currentIndex : Z;
  itemsPerView : Z
}.

Definition itemCount (data : CarouselData) : Z := items_length (element data).

Definition set_currentIndex (i : Z) (data : CarouselData) : CarouselData :=
  mkCarouselData (element data) (prevBtn data) (nextBtn data) i (itemsPerView data).

Definition set_itemsPerView (v : Z) (data : CarouselData) : CarouselData :=
  mkCarouselData (element data) (prevBtn data) (nextBtn data) (currentIndex data) v.

(** [getItemsPerView()], with [window.innerWidth] as its argument. *)
Definition getItemsPerView (innerWidth : Z) : Z :=
  if innerWidth <? 768 then 1
  else if innerWidth <? 1024 then 2
  else 3.

(** [Math.max(0, items.length - data.itemsPerView)]. *)
Definition maxIndex (data : CarouselData) : Z :=
  Z.max 0 (itemCount data - itemsPerView data).

(** The JavaScript number (a binary64 float) that holds the integer
    [z]; exact for every [z] from [-2^53] to [2^53], the only integers
    that a counter reaches. *)
Definition number (z : Z) : PrimFloat.float :=
  match z with
  | Z0 => 0%float
  | Zpos _ => PrimFloat.of_uint63 (Uint63.of_Z z)
  | Zneg _ => (- PrimFloat.of_uint63 (Uint63.of_Z (- z)))%float
  end.

(** [-(data.currentIndex * (100 / data.itemsPerView))], each operation
    rounded to the nearest binary64 value. *)
Definition translateX_of (data : CarouselData) : PrimFloat.float :=
  (- (number (currentIndex data) * (100 / number (itemsPerView data))))%float.

(** The rational that a finite float is; [None] for infinities and
    NaN. *)
Definition exactValue (f : PrimFloat.float) : option Q :=
  match FloatOps.Prim2SF f with
  | SpecFloat.S754_zero _ => Some 0%Q
  | SpecFloat.S754_finite s m e =>
      Some ((if s then -1 else 1) * inject_Z (Zpos m) * Qpower 2 e)%Q
  | _ => None
  end.

(** The rational [-(100 * i / v)] that the expression denotes. *)
Definition idealOffset (i v : Z) : Q := (- (inject_Z (100 * i) / inject_Z v))%Q.

(** The float [f] is the rational [q] up to a relative error of
    [2^-52] (two roundings). *)
Definition nearly (f : PrimFloat.float) (q : Q) : bool :=
  match exactValue f with
  | Some x => Qle_bool (Qabs (x - q)) (Qabs q * Qpower 2 (-52))
  | None => false
  end.

(** The float [f] is exactly the rational [q]. *)
Definition exactly (f : PrimFloat.float) (q : Q) : bool :=
  match exactValue f with
  | Some x => Qeq_bool x q
  | None => false
  end.

(** [check] holds of each of the [n] integers [0 .. n - 1]. *)
Definition checked_upto (check : Z -> bool) (n : positive) : bool :=
  snd (Pos.iter (fun st => (fst st + 1, snd st && check (fst st))) (0, true) n).

(** The methods below are the bodies that run once
    [this.carousels.get(carouselId)] has produced [data]; the lookup
    and its [if (!data) return] guard are [Manager.with_data]. *)

(** [updateCarousel]: writes the transform and both button states. *)
Definition updateCarousel (data : CarouselData) : CarouselData :=
  mkCarouselData
    (mkElement (itemCount data) (translateX_of data))
    (mkButton (currentIndex data <=? 0))
    (mkButton (currentIndex data >=? maxIndex data))
    (currentIndex data)
    (itemsPerView data).

(** [movePrev]. *)
Definition movePrev (data : CarouselData) : CarouselData :=
  if currentIndex data >? 0
  then updateCarousel (set_currentIndex (currentIndex data - 1) data)
  else data.

(** [moveNext]. *)
Definition moveNext (data : CarouselData) : CarouselData :=
  if currentIndex data <? maxIndex data
  then updateCarousel (set_currentIndex (currentIndex data + 1) data)
  else data.

(** [handleResize], with the [window.innerWidth] of the resize. *)
Definition handleResize (innerWidth : Z) (data : CarouselData) : CarouselData :=
  let newItemsPerView := getItemsPerView innerWidth in
  if negb (newItemsPerView =? itemsPerView data)
  then updateCarousel (set_currentIndex 0 (set_itemsPerView newItemsPerView data))
  else data.

(** The object literal of [initializeCarousel] followed by its
    [updateCarousel] call. *)
Definition initialData (carousel : Element) (prev next : Button)
    (innerWidth : Z) : CarouselData :=
  updateCarousel
    (mkCarouselData carousel prev next 0 (getItemsPerView innerWidth)).

(** What the presentation reads back: the two enabled flags and the
    offset. *)
Definition prevEnabled (data : CarouselData) : bool := negb (disabled (prevBtn data)).
Definition nextEnabled (data : CarouselData) : bool := negb (disabled (nextBtn data)).
Definition visualOffsetPercent (data : CarouselData) : PrimFloat.float :=
  translateX (element data).

(** Navigation clicks and the runs they make. *)
Inductive Nav : Type := Advance | Retreat.

Definition nav (n : Nav) : CarouselData -> CarouselData :=
  match n with
  | Advance => moveNext
  | Retreat => movePrev
  end.

Fixpoint navigate (ns : list Nav) (data : CarouselData) : CarouselData :=
  match ns with
  | [] => data
  | n :: ns' => navigate ns' (nav n data)
  end.

(** A carousel of [n] items showing [v] of them from index [i] on, as
    [updateCarousel] leaves it. *)
Definition view (n v i : Z) : CarouselData :=
  updateCarousel (mkCarouselData (mkElement n 0%float) (mkButton false) (mkButton false) i v).

(** The range of the view window of the specification's data model. *)
Definition inRange (data : CarouselData) : Prop :=
  0 <= currentIndex data <= Z.max 0 (itemCount data - itemsPerView data).

(** The DOM shows the data: transform and buttons are what
    [updateCarousel] would write. *)
Definition rendered (data : CarouselData) : Prop := updateCarousel data = data.

(** What holds of every carousel that the manager keeps. *)
Definition well_kept (data : CarouselData) : Prop :=
  rendered data /\ 1 <= itemsPerView data <= 3 /\ inRange data.

End Carousel.

(** The [carousels] map of the manager and the methods as they are
    called, by carousel id. *)
Module Manager.
Import Carousel.

(** [const data = this.carousels.get(carouselId); if (!data) return;]
    followed by a body that mutates [data] in place. *)
Definition with_data (body : CarouselData -> CarouselData) (carouselId : string)
    (carousels : gmap string CarouselData) : gmap string CarouselData :=
  match carousels !! carouselId with
  | Some data => <[carouselId := body data]> carousels
  | None => carousels
  end.

Definition movePrev := with_data Carousel.movePrev.
Definition moveNext := with_data Carousel.moveNext.
Definition updateCarousel := with_data Carousel.updateCarousel.
Definition handleResize (innerWidth : Z) := with_data (Carousel.handleResize innerWidth).

(** [initializeCarousel]: [carousel], [prev] and [next] are the results
    of the three [document.getElementById] calls. *)
Definition initializeCarousel (carouselId : string) (carousel : option Element)
    (prev next : option Button) (innerWidth : Z)
    (carousels : gmap string CarouselData) : gmap string CarouselData :=
  match carousel, prev, next with
  | Some c, Some p, Some n => <[carouselId := initialData c p n innerWidth]> carousels
  | _, _, _ => carousels
  end.

(** The calls the page makes on the manager. *)
Inductive Call : Type :=
| Initialize (carouselId : string) (carousel : option Element)
    (prev next : option Button) (innerWidth : Z)
| Prev (carouselId : string)
| Next (carouselId : string)
| Resize (carouselId : string) (innerWidth : Z).

Definition call (c : Call) : gmap string CarouselData -> gmap string CarouselData :=
  match c with
  | Initialize carouselId carousel prev next w =>
      initializeCarousel carouselId carousel prev next w
  | Prev carouselId => movePrev carouselId
  | Next carouselId => moveNext carouselId
  | Resize carouselId w => handleResize w carouselId
  end.

Fixpoint run (cs : list Call) (carousels : gmap string CarouselData) :
    gmap string CarouselData :=
  match cs with
  | [] => carousels
  | c :: cs' => run cs' (call c carousels)
  end.

(** What [new CarouselManager()] followed by any calls can hold. *)
Definition reachable (carousels : gmap string CarouselData) : Prop :=
  exists cs, carousels = run cs ∅.

End Manager.

(** ** CVWebsite *)

Module CVWebsite.

Local Open Scope string_scope.

(** *** Language detection *)

(** [s.split(sep)] for a separator of one character. *)
Fixpoint split (sep : ascii) (s : string) : list string :=
  match s with
  | EmptyString => [EmptyString]
  | String c s' =>
      if Ascii.eqb c sep then EmptyString :: split sep s'
      else match split sep s' with
           | w :: ws => String c w :: ws
           | [] => [String c EmptyString]
           end
  end.

(** [['en', 'de', 'fr'].includes(x)], [None] standing for [undefined]. *)
Definition supported : list string := ["en"; "de"; "fr"].

Definition includes (l : list string) (x : option string) : bool :=
  match x with
  | Some s => existsb (String.eqb s) l
  | None => false
  end.

(** Truthiness of a value that is a string or [null]/[undefined]. *)
Definition truthy_string (x : option string) : bool :=
  match x with
  | Some s => negb (String.eqb s "")
  | None => false
  end.

(** [path.split('/')[1]]. *)
Definition pathLang (pathname : string) : option string :=
  nth_error (split "/" pathname) 1.

(** [navigator.language.split('-')[0]]. *)
Definition browserLang (navigatorLanguage : string) : option string :=
  nth_error (split "-" navigatorLanguage) 0.

(** [getDefaultLanguage()]: [pathname] is [window.location.pathname],
    [stored] is [localStorage.getItem('cv-language')] ([None] for
    [null]) and [navigatorLanguage] is [navigator.language].  The
    result is what the JS returns; a returned [undefined] cannot occur
    since every return is guarded by [includes]. *)
Definition getDefaultLanguage (pathname : string) (stored : option string)
    (navigatorLanguage : string) : option string :=
  if includes supported (pathLang pathname) then pathLang pathname
  else if truthy_string stored && includes supported stored then stored
  else if includes supported (browserLang navigatorLanguage)
       then browserLang navigatorLanguage
  else Some "en".

(** A value that is one of the three supported codes. *)
Definition is_supported (x : option string) : Prop :=
  exists l, x = Some l /\ In l supported.

(** A string in which the separator does not occur. *)
Definition free_of (sep : ascii) (s : string) : Prop :=
  ~ In sep (list_ascii_of_string s).

(** *** Content documents *)

(** The values that a content document, an entry of the embedded table
    or a parsed JSON body can be.  Only their truthiness is inspected
    by the loader; a JSON number is kept as an integer. *)
#[local] Unset Elimination Schemes.
Inductive Value : Type :=
| VNull
| VBool (b : bool)
| VNumber (n : Z)
| VString (s : string)
| VArray (elems : list Value)
| VObject (props : list (string * Value)).
#[local] Set Elimination Schemes.

(** JS truthiness. *)
Definition truthy (v : Value) : bool :=
  match v with
  | VNull => false
  | VBool b => b
  | VNumber n => negb (n =? 0)%Z
  | VString s => negb (String.eqb s "")
  | VArray _ => true
  | VObject _ => true
  end.

(** The response that [await fetch(url)] yields: its [ok] flag and the
    outcome of [response.json()] ([None] when that promise rejects). *)
Record Response : Type := mkResponse {
  ok : bool;
  json : option Value
}.

(** The page around the loader: [window.siteData] ([None] when it is
    missing or falsy, otherwise what [siteData[name]] evaluates to for
    each property name), the content of the [base-url] meta tag (or the
    empty string) and the network ([fetch url] is [None] when the
    promise of [fetch] rejects). *)
Record Page : Type := mkPage {
  siteData : option (gmap string Value);
  baseUrl : string;
  fetch : string -> option Response
}.

(** The exceptions that [loadContentData] lets escape. *)
Inductive Error : Type :=
| FetchFailed (url : string)
| JsonFailed (url : string)
| NoDataAvailable (language : string).

(** [this.contentCache], and the URLs handed to [fetch] so far, oldest
    first (a ghost log: the program itself keeps none). *)
Record State : Type := mkState {
  contentCache : gmap string Value;
  fetched : list string
}.

Inductive Outcome (A : Type) : Type :=
| Returned (a : A)
| Thrown (e : Error).
Arguments Returned {A} a.
Arguments Thrown {A} e.

(** Computations over the state that return or throw; [None] is a
    recursion that ran out of fuel. *)
Definition M (A : Type) : Type := State -> option (Outcome A * State).

#[global] Instance M_ret : MRet M := fun A a st => Some (Returned a, st).

#[global] Instance M_bind : MBind M := fun A B k m st =>
  match m st with
  | Some (Returned a, st') => k a st'
  | Some (Thrown e, st') => Some (Thrown e, st')
  | None => None
  end.

Definition throw {A : Type} (e : Error) : M A := fun st => Some (Thrown e, st).

Definition out_of_fuel {A : Type} : M A := fun _ => None.

(** [try { body } catch (error) { handler }]. *)
Definition try_catch {A : Type} (body : M A) (handler : Error -> M A) : M A :=
  fun st =>
    match body st with
    | Some (Thrown e, st') => handler e st'
    | r => r
    end.

(** The state once [url] has been fetched. *)
Definition log_fetch (url : string) (st : State) : State :=
  mkState (contentCache st) (fetched st ++ [url]).

(** The state once [data] has been cached under [cacheKey]. *)
Definition store (cacheKey : string) (data : Value) (st : State) : State :=
  mkState (<[cacheKey := data]> (contentCache st)) (fetched st).

(** [this.contentCache[cacheKey]], read for its truthiness. *)
Definition cache_get (cacheKey : string) : M (option Value) :=
  fun st => Some (Returned (contentCache st !! cacheKey), st).

(** [this.contentCache[cacheKey] = data]. *)
Definition cache_set (cacheKey : string) (data : Value) : M unit :=
  fun st => Some (Returned tt, store cacheKey data st).

(** [await fetch(url)]. *)
Definition await_fetch (page : Page) (url : string) : M Response :=
  fun st =>
    let st' := log_fetch url st in
    match fetch page url with
    | None => Some (Thrown (FetchFailed url), st')
    | Some response => Some (Returned response, st')
    end.

(** [await response.json()]. *)
Definition await_json (url : string) (response : Response) : M Value :=
  match json response with
  | Some data => mret data
  | None => throw (JsonFailed url)
  end.

(** A value that is there and truthy. *)
Definition if_truthy (x : option Value) : option Value :=
  match x with
  | Some v => if truthy v then Some v else None
  | None => None
  end.

(** [window.siteData && window.siteData[language]], when truthy. *)
Definition embedded (page : Page) (language : string) : option Value :=
  match siteData page with
  | Some table => if_truthy (table !! language)
  | None => None
  end.

Definition cacheKey_of (language : string) : string := "content-" +:+ language.

Definition url_of (page : Page) (language : string) : string :=
  baseUrl page +:+ "/assets/data/" +:+ language +:+ ".json".

(** [loadContentData(language)], as one call runs when no other call
    runs in between (module [Async] cuts it at its awaits).  The only
    recursive call is the one on ['en'], which is why two levels of
    fuel are enough ([loadContentData] below).  The promise returned by that call is
    returned without [await]; its rejection reaches the caller as it is,
    which is also what the rethrowing [catch] gives. *)
Fixpoint loadContentData_fuel (fuel : nat) (page : Page) (language : string) : M Value :=
  match fuel with
  | O => out_of_fuel
  | S fuel' =>
      let cacheKey := cacheKey_of language in
      cached ← cache_get cacheKey;
      match if_truthy cached with
      | Some data => mret data
      | None =>
          try_catch
            (match embedded page language with
             | Some data =>
                 _ ← cache_set cacheKey data;
                 mret data
             | None =>
                 let url := url_of page language in
                 response ← await_fetch page url;
                 if ok response then
                   data ← await_json url response;
                   _ ← cache_set cacheKey data;
                   mret data
                 else if bool_decide (language ≠ "en") then
                   loadContentData_fuel fuel' page "en"
                 else
                   throw (NoDataAvailable language)
             end)
            (fun error => throw error)
      end
  end.

Definition loadContentData (page : Page) (language : string) : M Value :=
  loadContentData_fuel 2 page language.

(** The state that a call leaves. *)
Definition state_after {A : Type} (r : option (Outcome A * State)) (st : State) : State :=
  match r with
  | Some (_, st') => st'
  | None => st
  end.

(** The call finds no truthy cache entry for the language. *)
Definition cache_miss (language : string) (st : State) : Prop :=
  if_truthy (contentCache st !! cacheKey_of language) = None.

(** The language has no document of its own: it is not in the embedded
    table and the response to its fetch is not ok. *)
Definition no_document (page : Page) (language : string) : Prop :=
  embedded page language = None /\
  exists response, fetch page (url_of page language) = Some response /\
                   ok response = false.

(** The read of the language raises: it is not in the embedded table
    and either the fetch rejects or the body of an ok response does
    not parse. *)
Definition read_raises (page : Page) (language : string) (e : Error) : Prop :=
  embedded page language = None /\
  (fetch page (url_of page language) = None /\ e = FetchFailed (url_of page language) \/
   exists response, fetch page (url_of page language) = Some response /\
                    ok response = true /\ json response = None /\
                    e = JsonFailed (url_of page language)).

(** The call goes through the fallback to ['en']. *)
Definition falls_back (page : Page) (language : string) (st : State) : Prop :=
  cache_miss language st /\ no_document page language /\ language <> "en".

(** Example pages: English alone is embedded, and the network either
    is down (every fetch rejects) or answers 404 to every request. *)
Definition example_document : Value := VObject [("title", VString "Curriculum Vitae")].

Definition offline_page : Page :=
  mkPage (Some {[ "en" := example_document ]}) "" (fun _ => None).

Definition english_only_page : Page :=
  mkPage (Some {[ "en" := example_document ]}) "" (fun _ => Some (mkResponse false None)).

(** The state of a new [CVWebsite]. *)
Definition fresh : State := mkState ∅ [].

(** The fetches of one call: what it appended to the log. *)
Definition fetches_of (page : Page) (language : string) (st : State) : list string :=
  drop (length (fetched st)) (fetched (state_after (loadContentData page language st) st)).

End CVWebsite.

(** ** Calls of [loadContentData] that overlap *)

(** [loadContentData] is an [async] function: it is suspended at
    [await fetch(...)] and at [await response.json()], and other calls
    run in between.  Here every call is cut at its awaits and the pieces
    of different calls are run in any order. *)
Module Async.
Import CVWebsite.

Local Open Scope string_scope.

(** Where a call is suspended. *)
Inductive Stage : Type :=
| AwaitFetch
| AwaitJson (response : Response).

(** A suspended invocation: the call it belongs to, the language that
    the call was made for, the language of the invocation that is
    suspended (['en'] after the fallback), the URL it fetched and the
    await it is at. *)
Record Task : Type := mkTask {
  call : nat;
  requested : string;
  language : string;
  url : string;
  stage : Stage
}.

(** A call that has returned or thrown, and the language of the
    invocation that produced the outcome. *)
Record Settled : Type := mkSettled {
  settled_call : nat;
  settled_requested : string;
  settled_language : string;
  outcome : Outcome Value
}.

(** The cache and the fetch log, the suspended invocations and the
    calls that have settled, oldest first. *)
Record System : Type := mkSystem {
  state : State;
  pending : list Task;
  settled : list Settled
}.

Definition settle (id : nat) (requested language : string) (o : Outcome Value)
    (st : State) (sys : System) : System :=
  mkSystem st (pending sys) (settled sys ++ [mkSettled id requested language o]).

(** [loadContentData(language)] from its entry to its first [await] or
    to its [return]. *)
Definition start (page : Page) (id : nat) (requested language : string)
    (sys : System) : System :=
  match if_truthy (contentCache (state sys) !! cacheKey_of language) with
  | Some data => settle id requested language (Returned data) (state sys) sys
  | None =>
      match embedded page language with
      | Some data =>
          settle id requested language (Returned data)
            (store (cacheKey_of language) data (state sys)) sys
      | None =>
          mkSystem (log_fetch (url_of page language) (state sys))
            (pending sys ++ [mkTask id requested language (url_of page language) AwaitFetch])
            (settled sys)
      end
  end.

(** The first suspended invocation of call [id] that satisfies [at_stage],
    and the others. *)
Fixpoint take_task (at_stage : Stage -> bool) (id : nat) (tasks : list Task) :
    option (Task * list Task) :=
  match tasks with
  | [] => None
  | task :: tasks' =>
      if Nat.eqb (call task) id && at_stage (stage task) then Some (task, tasks')
      else
        match take_task at_stage id tasks' with
        | Some (found, others) => Some (found, task :: others)
        | None => None
        end
  end.

Definition awaits_fetch (s : Stage) : bool :=
  match s with AwaitFetch => true | AwaitJson _ => false end.

Definition awaits_json (s : Stage) : bool :=
  match s with AwaitFetch => false | AwaitJson _ => true end.

(** What happens on the page: a call is made, the promise of a fetch
    settles ([None]: it rejects) and the call goes on to its next
    [await] or to its end, or the promise of [response.json()] settles.
    [page] is the page at that moment. *)
Inductive Event : Type :=
| Call (id : nat) (page : Page) (language : string)
| FetchSettles (id : nat) (page : Page) (result : option Response)
| JsonSettles (id : nat).

Definition step (ev : Event) (sys : System) : System :=
  match ev with
  | Call id page language => start page id language language sys
  | FetchSettles id page result =>
      match take_task awaits_fetch id (pending sys) with
      | None => sys
      | Some (task, others) =>
          let sys' := mkSystem (state sys) others (settled sys) in
          match result with
          | None =>
              settle id (requested task) (language task) (Thrown (FetchFailed (url task)))
                (state sys) sys'
          | Some response =>
              if ok response then
                mkSystem (state sys)
                  (others ++ [mkTask id (requested task) (language task) (url task)
                                (AwaitJson response)])
                  (settled sys)
              else if bool_decide (language task ≠ "en") then
                start page id (requested task) "en" sys'
              else
                settle id (requested task) (language task)
                  (Thrown (NoDataAvailable (language task))) (state sys) sys'
          end
      end
  | JsonSettles id =>
      match take_task awaits_json id (pending sys) with
      | None => sys
      | Some (task, others) =>
          let sys' := mkSystem (state sys) others (settled sys) in
          match stage task with
          | AwaitJson response =>
              match json response with
              | Some data =>
                  settle id (requested task) (language task) (Returned data)
                    (store (cacheKey_of (language task)) data (state sys)) sys'
              | None =>
                  settle id (requested task) (language task)
                    (Thrown (JsonFailed (url task))) (state sys) sys'
              end
          | AwaitFetch => sys
          end
      end
  end.

Fixpoint run (evs : list Event) (sys : System) : System :=
  match evs with
  | [] => sys
  | ev :: evs' => run evs' (step ev sys)
  end.



(** One call run from its start to its end with nothing in between, on
    a page that stays as it is. *)
Definition alone (page : Page) (id : nat) (lang : string) (sys : System) : System :=
  run [ Call id page lang;
        FetchSettles id page (fetch page (url_of page lang));
        JsonSettles id;
        FetchSettles id page (fetch page (url_of page "en"));
        JsonSettles id ] sys.

(** A system with nothing suspended and nothing settled. *)
Definition idle (st : State) : System := mkSystem st [] [].

(** What the page can be in after any events. *)
Definition reachable (sys : System) : Prop :=
  exists st evs, sys = run evs (idle st).




End Async.

(** ** Strings, the way the page scripts use them *)

Module JsString.

Local Open Scope string_scope.

(** [s] without its prefix [pat], when it starts with [pat]. *)
Fixpoint strip_prefix (pat s : string) : option string :=
  match pat with
  | EmptyString => Some s
  | String c pat' =>
      match s with
      | String d s' => if Ascii.eqb c d then strip_prefix pat' s' else None
      | EmptyString => None
      end
  end.

(** [s.replace(pat, rep)] for a string pattern: the first occurrence. *)
Fixpoint replace (pat rep s : string) : string :=
  match strip_prefix pat s with
  | Some rest => rep +:+ rest
  | None =>
      match s with
      | EmptyString => EmptyString
      | String c s' => String c (replace pat rep s')
      end
  end.

(** [s.includes(pat)]. *)
Fixpoint includes (pat s : string) : bool :=
  match strip_prefix pat s with
  | Some _ => true
  | None =>
      match s with
      | EmptyString => false
      | String _ s' => includes pat s'
      end
  end.

(** [s.split('/').filter(Boolean).pop()]: [None] for [undefined]. *)
Definition lastSegment (s : string) : option string :=
  last (filter (fun w => w <> EmptyString) (CVWebsite.split "/" s)).

End JsString.

(** ** Click and resize listeners of the carousels *)

Module Listeners.
Import Carousel.

Local Open Scope string_scope.

(** [document.getElementById], read as a carousel element or as a
    button. *)
Record Document : Type := mkDocument {
  elementById : string -> option Element;
  buttonById : string -> option Button
}.

(** The manager's map together with the listeners that
    [initializeCarousel] has registered: per button id the calls its
    click listeners make, oldest first, and the carousel ids of the
    resize listeners of [window]. *)
Record Dom : Type := mkDom {
  carousels : gmap string CarouselData;
  clickListeners : gmap string (list Manager.Call);
  resizeListeners : list string
}.

(** The page before any carousel is initialised. *)
Definition fresh : Dom := mkDom ∅ ∅ [].

Definition typeOf (carouselId : string) : string :=
  JsString.replace "Carousel" "" carouselId.

Definition prevId (carouselId : string) : string := typeOf carouselId +:+ "Prev".
Definition nextId (carouselId : string) : string := typeOf carouselId +:+ "Next".

(** [button.addEventListener('click', listener)]. *)
Definition addClickListener (buttonId : string) (listener : Manager.Call)
    (listeners : gmap string (list Manager.Call)) : gmap string (list Manager.Call) :=
  <[buttonId := (default [] (listeners !! buttonId) ++ [listener])%list]> listeners.

(** [initializeCarousel(carouselId)] with its listeners. *)
Definition initializeCarousel (doc : Document) (innerWidth : Z) (carouselId : string)
    (dom : Dom) : Dom :=
  match elementById doc carouselId with
  | None => dom
  | Some carousel =>
      match buttonById doc (prevId carouselId), buttonById doc (nextId carouselId) with
      | Some prev, Some next =>
          mkDom
            (<[carouselId := initialData carousel prev next innerWidth]> (carousels dom))
            (addClickListener (nextId carouselId) (Manager.Next carouselId)
               (addClickListener (prevId carouselId) (Manager.Prev carouselId)
                  (clickListeners dom)))
            (resizeListeners dom ++ [carouselId])%list
      | _, _ => dom
      end
  end.

(** The dispatch of a click event on a button: every listener runs, in
    the order of registration.  (The browser dispatches none when the
    button is disabled.) *)
Definition click (buttonId : string) (dom : Dom) : Dom :=
  mkDom
    (Manager.run (default [] (clickListeners dom !! buttonId)) (carousels dom))
    (clickListeners dom)
    (resizeListeners dom).

(** The dispatch of a resize event at the new [window.innerWidth]. *)
Definition resize (innerWidth : Z) (dom : Dom) : Dom :=
  mkDom
    (Manager.run (map (fun carouselId => Manager.Resize carouselId innerWidth)
                    (resizeListeners dom))
       (carousels dom))
    (clickListeners dom)
    (resizeListeners dom).

(** The carousel that a call is about. *)
Definition target (c : Manager.Call) : string :=
  match c with
  | Manager.Initialize carouselId _ _ _ _ => carouselId
  | Manager.Prev carouselId => carouselId
  | Manager.Next carouselId => carouselId
  | Manager.Resize carouselId _ => carouselId
  end.

End Listeners.

(** Carousels that share their buttons. *)
Module Sharing.
Import Carousel.

(** The carousel ids that a sequence of calls initialises. *)
Definition initialised (cs : list Manager.Call) : list string :=
  omap (fun c => match c with
                 | Manager.Initialize carouselId _ _ _ _ => Some carouselId
                 | _ => None
                 end) cs.

(** No two carousels that are initialised share their buttons: the
    buttons of a carousel are [#<type>Prev] and [#<type>Next], so two
    ids share them when they have the same type. *)
Definition distinct_buttons (cs : list Manager.Call) : Prop :=
  forall a b, In a (initialised cs) -> In b (initialised cs) ->
              Listeners.typeOf a = Listeners.typeOf b -> a = b.
End Sharing.

(** ** AccessibilityManager *)

Module Accessibility.

Local Open Scope string_scope.

(** The [switch] of [handleLanguageSelectorKeys]: [key] is [e.key],
    [currentIndex] is [buttons.indexOf(e.target)] and [length] is
    [buttons.length].  [Some nextIndex] stands for [e.preventDefault()]
    followed by [buttons[nextIndex].focus()], [None] for the [return]
    of the default case. *)
Definition handleLanguageSelectorKeys (key : string) (currentIndex length : Z) : option Z :=
  if String.eqb key "ArrowLeft" || String.eqb key "ArrowUp" then
    Some (if currentIndex >? 0 then currentIndex - 1 else length - 1)%Z
  else if String.eqb key "ArrowRight" || String.eqb key "ArrowDown" then
    Some (if currentIndex <? length - 1 then currentIndex + 1 else 0)%Z
  else None.

(** The index of the focused button after a sequence of key presses,
    starting with the focus on button [currentIndex]. *)
Fixpoint press (keys : list string) (currentIndex length : Z) : Z :=
  match keys with
  | [] => currentIndex
  | key :: keys' =>
      match handleLanguageSelectorKeys key currentIndex length with
      | Some nextIndex => press keys' nextIndex length
      | None => press keys' currentIndex length
      end
  end.

End Accessibility.

(** ** CVWebsite: navigation, language switching and page meta *)

Module Website.
Import CVWebsite.

Local Open Scope string_scope.

(** A [section[id]] element: its id and its [offsetTop]. *)
Record SectionElement : Type := mkSection {
  section_id : string;
  offsetTop : Z
}.

(** [scrollY >= section.offsetTop - navHeight - 50] with
    [navHeight = 80]; [window.pageYOffset] may be fractional. *)
Definition reached (scrollY : Q) (section : SectionElement) : bool :=
  Qle_bool (inject_Z (offsetTop section - 80 - 50)) scrollY.

(** [getCurrentSection(sections)]: the loop runs from the last section
    to the first and returns at the first one that is reached. *)
Definition getCurrentSection (scrollY : Q) (sections : list SectionElement) : string :=
  match find (reached scrollY) (rev sections) with
  | Some section => section_id section
  | None =>
      match sections with
      | first :: _ => if String.eqb (section_id first) "" then "" else section_id first
      | [] => ""
      end
  end.

(** [mainPagePatterns]. *)
Definition mainPagePatterns (baseUrl : string) : list string :=
  [ "/"; "/index.html"; baseUrl +:+ "/"; baseUrl +:+ "/index.html";
    baseUrl +:+ "/en/"; baseUrl +:+ "/de/"; baseUrl +:+ "/fr/" ].

(** [path.match(/^<prefix>(en|de|fr)\/?$/)]: the prefix, one of the
    three codes and at most one slash, nothing else. *)
Definition matchLang (prefix path : string) : bool :=
  existsb (fun l => String.eqb path (prefix +:+ l) || String.eqb path (prefix +:+ l +:+ "/"))
    ["en"; "de"; "fr"].

(** [isLangPath]: the two regular expressions, with prefixes [/] and
    [/cv/]. *)
Definition isLangPath (path : string) : bool :=
  matchLang "/" path || matchLang "/cv/" path.

(** [isMainPage()], with [path] for [window.location.pathname]. *)
Definition isMainPage (baseUrl path : string) : bool :=
  existsb (String.eqb path) (mainPagePatterns baseUrl) || isLangPath path.

(** The detail loaders that a detail page may define on [window]. *)
Inductive Detail : Type := CareerDetail | EducationDetail.

(** The site and the parts of the browser that language switching
    touches: the fields of [CVWebsite], [localStorage],
    [document.documentElement.lang], the language buttons (each with
    its [dataset.lang] and whether it has the class [active]) and the
    calls made to [window.loadCareerDetail] and
    [window.loadEducationDetail], oldest first.  The HTML that the
    render functions write is not part of it. *)
Record Site : Type := mkSite {
  currentLanguage : string;
  isLoading : bool;
  loader : State;
  localStorage : gmap string string;
  documentLang : string;
  langButtons : list (option string * bool);
  detailCalls : list (Detail * option string)
}.

(** What surrounds a call: the page of the loader, the path and which
    detail loaders [window] has. *)
Record Env : Type := mkEnv {
  page : Page;
  pathname : string;
  hasLoadCareerDetail : bool;
  hasLoadEducationDetail : bool
}.

(** [updateLanguageSelector(activeLang)]. *)
Definition updateLanguageSelector (activeLang : string)
    (buttons : list (option string * bool)) : list (option string * bool) :=
  map (fun btn => (fst btn, bool_decide (fst btn = Some activeLang))) buttons.

(** [loadAndRenderContent()], as far as [Site] goes: the guard, the
    load of the current language and the [finally]. *)
Definition loadAndRenderContent (env : Env) (site : Site) : Site :=
  if isLoading site then site
  else
    mkSite (currentLanguage site) false
      (state_after (loadContentData (page env) (currentLanguage site) (loader site))
         (loader site))
      (localStorage site) (documentLang site) (langButtons site) (detailCalls site).

(** [reloadDetailPage(newLang)]. *)
Definition reloadDetailPage (env : Env) (site : Site) : Site :=
  let call detail :=
    mkSite (currentLanguage site) (isLoading site) (loader site) (localStorage site)
      (documentLang site) (langButtons site)
      (detailCalls site ++ [(detail, JsString.lastSegment (pathname env))]) in
  if JsString.includes "/career/" (pathname env) then
    if hasLoadCareerDetail env then call CareerDetail else site
  else if JsString.includes "/education/" (pathname env) then
    if hasLoadEducationDetail env then call EducationDetail else site
  else site.

(** [switchLanguage(newLang)]. *)
Definition switchLanguage (env : Env) (newLang : string) (site : Site) : Site :=
  if String.eqb newLang (currentLanguage site) || isLoading site then site
  else
    let site' :=
      mkSite newLang (isLoading site) (loader site)
        (<["cv-language" := newLang]> (localStorage site))
        newLang
        (updateLanguageSelector newLang (langButtons site))
        (detailCalls site) in
    if isMainPage (baseUrl (page env)) (pathname env)
    then loadAndRenderContent env site'
    else reloadDetailPage env site'.

(** [getDefaultLanguage()] on the path of the environment and the
    stored preference of the site, as a later page load computes it. *)
Definition defaultLanguage (path : string) (navigatorLanguage : string) (site : Site) :
    option string :=
  getDefaultLanguage path (localStorage site !! "cv-language") navigatorLanguage.

(** [preloadCriticalResources()]: the [href]s of the prefetch links it
    appends; [currentLang] is [window.cvWebsite?.getCurrentLanguage()],
    [None] for [undefined]. *)
Definition preloadCriticalResources (page : Page) (currentLang : option string) :
    list string :=
  let current :=
    match currentLang with
    | Some l => if String.eqb l "" then "en" else l
    | None => "en"
    end in
  map (url_of page) (filter (fun lang => lang <> current) ["en"; "de"; "fr"]).

(** *** The meta description *)

(** A JS string as its UTF-16 code units. *)
Definition isWhiteSpace (c : N) : bool :=
  existsb (N.eqb c)
    [0x9; 0xA; 0xB; 0xC; 0xD; 0x20; 0xA0; 0x1680; 0x2028; 0x2029; 0x202F; 0x205F;
     0x3000; 0xFEFF]%N
  || (0x2000 <=? c)%N && (c <=? 0x200A)%N.

Fixpoint trimStart (s : list N) : list N :=
  match s with
  | c :: s' => if isWhiteSpace c then trimStart s' else s
  | [] => []
  end.

(** [s.trim()]. *)
Definition trim (s : list N) : list N := rev (trimStart (rev (trimStart s))).

(** [data.intro.text.replace(/[•\n]/g, ' ').trim().substring(0, 160)],
    the description that [updatePageMeta] writes. *)
Definition metaDescription (text : list N) : list N :=
  take 160 (trim (map (fun c => if (c =? 0x2022)%N || (c =? 0xA)%N then 0x20%N else c) text)).

End Website.

(** * Properties of the carousel *)

Section CarouselFacts.
Import Carousel.

(** Case analysis on the integer tests of the methods. *)
Ltac ztests :=
  rewrite ?Z.gtb_ltb, ?Z.geb_leb in *;
  repeat match goal with
  | |- context [?a <? ?b] => destruct (Z.ltb_spec a b)
  | |- context [?a <=? ?b] => destruct (Z.leb_spec a b)
  | |- context [?a =? ?b] => destruct (Z.eqb_spec a b)
  end.

Lemma updateCarousel_currentIndex data :
  currentIndex (updateCarousel data) = currentIndex data.
Proof. reflexivity. Qed.

Lemma updateCarousel_itemsPerView data :
  itemsPerView (updateCarousel data) = itemsPerView data.
Proof. reflexivity. Qed.

Lemma updateCarousel_itemCount data :
  itemCount (updateCarousel data) = itemCount data.
Proof. reflexivity. Qed.

(** [updateCarousel] run twice writes what it wrote the first time. *)
Lemma updateCarousel_idem data :
  updateCarousel (updateCarousel data) = updateCarousel data.
Proof. reflexivity. Qed.

(** Below a non-negative index, [maxIndex] and the plain difference
    admit the same comparisons. *)
Lemma lt_maxIndex data :
  0 <= currentIndex data ->
  (currentIndex data <? maxIndex data) = (currentIndex data <? itemCount data - itemsPerView data).
Proof. unfold maxIndex. intros. ztests; lia. Qed.

Lemma movePrev_frame data :
  itemCount (movePrev data) = itemCount data /\
  itemsPerView (movePrev data) = itemsPerView data.
Proof. unfold movePrev. destruct (_ >? _); auto. Qed.

Lemma moveNext_frame data :
  itemCount (moveNext data) = itemCount data /\
  itemsPerView (moveNext data) = itemsPerView data.
Proof. unfold moveNext. destruct (_ <? _); auto. Qed.

Lemma nav_frame n data :
  itemCount (nav n data) = itemCount data /\
  itemsPerView (nav n data) = itemsPerView data.
Proof. destruct n; [apply moveNext_frame | apply movePrev_frame]. Qed.

Lemma movePrev_inRange data : inRange data -> inRange (movePrev data).
Proof.
  unfold inRange, movePrev. intros H.
  destruct (Z.gtb_spec (currentIndex data) 0); [|assumption].
  rewrite updateCarousel_currentIndex, updateCarousel_itemCount,
    updateCarousel_itemsPerView. cbn. unfold itemCount in *. cbn. lia.
Qed.

Lemma moveNext_inRange data : inRange data -> inRange (moveNext data).
Proof.
  unfold inRange, moveNext, maxIndex. intros H.
  destruct (Z.ltb_spec (currentIndex data) (Z.max 0 (itemCount data - itemsPerView data)));
    [|assumption].
  rewrite updateCarousel_currentIndex, updateCarousel_itemCount,
    updateCarousel_itemsPerView. cbn. unfold itemCount in *. cbn. lia.
Qed.

Lemma handleResize_inRange w data : inRange data -> inRange (handleResize w data).
Proof.
  unfold inRange, handleResize. intros H.
  destruct (negb _); [|assumption]. cbn. lia.
Qed.

(** C6. [getItemsPerView] is a function of the viewport width alone: it
    is 1 below 768, 2 from 768 up to 1023 and 3 from 1024 on. *)
Theorem getItemsPerView_breakpoints (w : Z) :
  (w < 768 -> getItemsPerView w = 1) /\
  (768 <= w < 1024 -> getItemsPerView w = 2) /\
  (1024 <= w -> getItemsPerView w = 3).
Proof. unfold getItemsPerView. repeat split; intros; ztests; lia. Qed.

Lemma getItemsPerView_breakpoints_witness :
  getItemsPerView 500 = 1 /\ getItemsPerView 800 = 2 /\ getItemsPerView 1200 = 3.
Proof.
  split; [|split].
  - apply (getItemsPerView_breakpoints 500). lia.
  - apply (getItemsPerView_breakpoints 800). lia.
  - apply (getItemsPerView_breakpoints 1200). lia.
Defined.

Lemma getItemsPerView_range w : 1 <= getItemsPerView w <= 3.
Proof. unfold getItemsPerView. ztests; lia. Qed.

(** C4. [movePrev] takes one off [currentIndex] when it is positive,
    keeping the item count and the items per view; otherwise, and so at
    index 0, it leaves the whole carousel data as it is. *)
Theorem movePrev_decrements (data : CarouselData) :
  (currentIndex data > 0 ->
     currentIndex (movePrev data) = currentIndex data - 1 /\
     itemCount (movePrev data) = itemCount data /\
     itemsPerView (movePrev data) = itemsPerView data) /\
  (currentIndex data <= 0 -> movePrev data = data) /\
  (currentIndex data = 0 -> movePrev data = data).
Proof.
  unfold movePrev. repeat split; intros;
    destruct (Z.gtb_spec (currentIndex data) 0); try lia; reflexivity.
Qed.

Lemma movePrev_decrements_witness :
  currentIndex (movePrev (view 7 3 2)) = 1 /\ movePrev (view 7 3 0) = view 7 3 0.
Proof.
  split.
  - apply (movePrev_decrements (view 7 3 2)). cbn. lia.
  - apply (movePrev_decrements (view 7 3 0)). reflexivity.
Defined.

(** C3. On a carousel whose index is not negative (as in every view
    window state), [moveNext] adds one to [currentIndex] when
    [currentIndex < itemCount - itemsPerView], keeping the item count
    and the items per view; otherwise, and so at
    [currentIndex = itemCount - itemsPerView], it leaves the whole
    carousel data as it is. *)
Theorem moveNext_increments (data : CarouselData) :
  0 <= currentIndex data ->
  (currentIndex data < itemCount data - itemsPerView data ->
     currentIndex (moveNext data) = currentIndex data + 1 /\
     itemCount (moveNext data) = itemCount data /\
     itemsPerView (moveNext data) = itemsPerView data) /\
  (itemCount data - itemsPerView data <= currentIndex data -> moveNext data = data) /\
  (currentIndex data = itemCount data - itemsPerView data -> moveNext data = data).
Proof.
  intros H0. unfold moveNext. rewrite (lt_maxIndex data H0).
  repeat split; intros;
    destruct (Z.ltb_spec (currentIndex data) (itemCount data - itemsPerView data));
    try lia; reflexivity.
Qed.

Lemma moveNext_increments_witness :
  currentIndex (moveNext (view 7 3 2)) = 3 /\ moveNext (view 7 3 4) = view 7 3 4.
Proof.
  split.
  - apply (moveNext_increments (view 7 3 2)); cbn; lia.
  - apply (moveNext_increments (view 7 3 4)); cbn; [lia | reflexivity].
Defined.

(** C7. After [updateCarousel] on a carousel whose index is not negative
    (as in every view window state), the previous button is enabled
    exactly when [currentIndex > 0] and the next button exactly when
    [currentIndex < itemCount - itemsPerView].  With 7 items, 3 per
    view and index 0, one advance gives index 1, four give index 4, and
    a further advance leaves the data as it is, at index 4 with the
    next button disabled. *)
Theorem controlState_flags :
  (forall data : CarouselData,
     0 <= currentIndex data ->
     prevEnabled (updateCarousel data) = (currentIndex data >? 0) /\
     nextEnabled (updateCarousel data)
       = (currentIndex data <? itemCount data - itemsPerView data)) /\
  (forall data : CarouselData,
     itemCount data = 7 -> itemsPerView data = 3 -> currentIndex data = 0 ->
     let data4 := navigate [Advance; Advance; Advance; Advance] data in
     currentIndex (moveNext data) = 1 /\
     currentIndex data4 = 4 /\
     moveNext data4 = data4 /\
     currentIndex (moveNext data4) = 4 /\
     nextEnabled (moveNext data4) = false).
Proof.
  split.
  - intros data H0. unfold prevEnabled, nextEnabled. cbn.
    rewrite <- (lt_maxIndex data H0). ztests; split; reflexivity || lia.
  - intros [[n t] p nx i v]. unfold itemCount. cbn. intros -> -> ->.
    repeat split.
Qed.

Lemma controlState_flags_witness :
  prevEnabled (updateCarousel (view 7 3 4)) = true /\
  nextEnabled (updateCarousel (view 7 3 4)) = false /\
  nextEnabled (moveNext (navigate [Advance; Advance; Advance; Advance] (view 7 3 0))) = false.
Proof.
  destruct controlState_flags as [flags scenario].
  destruct (flags (view 7 3 4)) as [Hp Hn]; [cbn; lia|].
  destruct (scenario (view 7 3 0)) as (_ & _ & _ & _ & Hs); [reflexivity..|].
  repeat split; assumption.
Defined.

(** C5. [handleResize] recomputes the items per view from the new width.
    When that differs from the stored value, the stored value becomes
    the new one and [currentIndex] becomes 0 (the item count stays);
    when it does not differ, the whole carousel data stays as it is.
    Going from width 1200 (3 per view) to width 500 at index 4 gives
    index 0 with 1 item per view. *)
Theorem handleResize_resets :
  (forall (innerWidth : Z) (data : CarouselData),
     (getItemsPerView innerWidth <> itemsPerView data ->
        itemsPerView (handleResize innerWidth data) = getItemsPerView innerWidth /\
        currentIndex (handleResize innerWidth data) = 0 /\
        itemCount (handleResize innerWidth data) = itemCount data) /\
     (getItemsPerView innerWidth = itemsPerView data ->
        handleResize innerWidth data = data)) /\
  (forall data : CarouselData,
     itemsPerView data = getItemsPerView 1200 -> currentIndex data = 4 ->
     itemsPerView data = 3 /\
     currentIndex (handleResize 500 data) = 0 /\
     itemsPerView (handleResize 500 data) = 1).
Proof.
  split.
  - intros w data. unfold handleResize. split; intros H;
      destruct (Z.eqb_spec (getItemsPerView w) (itemsPerView data)); try contradiction;
      repeat split.
  - intros [[n t] p nx i v]. cbn. intros -> ->. repeat split.
Qed.

Lemma handleResize_resets_witness :
  currentIndex (handleResize 500 (view 7 3 4)) = 0 /\
  handleResize 1100 (view 7 3 4) = view 7 3 4.
Proof.
  destruct handleResize_resets as [general scenario].
  split.
  - apply (scenario (view 7 3 4)); reflexivity.
  - apply (general 1100 (view 7 3 4)). reflexivity.
Defined.

(** C1. From carousel data whose index lies in
    [0, max(0, itemCount - itemsPerView)], any finite sequence of
    [moveNext] and [movePrev] ends with the same item count, the same
    items per view and an index in that same range; no condition on
    the item count or on the items per view is needed, so it holds in
    particular for [itemCount >= 0] and [itemsPerView >= 1]. *)
Theorem navigate_in_range (ns : list Nav) (data : CarouselData) :
  0 <= currentIndex data <= Z.max 0 (itemCount data - itemsPerView data) ->
  itemCount (navigate ns data) = itemCount data /\
  itemsPerView (navigate ns data) = itemsPerView data /\
  0 <= currentIndex (navigate ns data) <= Z.max 0 (itemCount data - itemsPerView data).
Proof.
  revert data. induction ns as [|n ns IH]; intros data H; cbn.
  - auto.
  - destruct (nav_frame n data) as [Hc Hv].
    assert (Hn : inRange (nav n data))
      by (destruct n; [apply moveNext_inRange | apply movePrev_inRange]; exact H).
    destruct (IH (nav n data) Hn) as (Ec & Ev & Er).
    rewrite Hc, Hv in *. auto.
Qed.

Lemma navigate_in_range_witness :
  0 <= currentIndex (navigate [Advance; Advance; Retreat; Advance; Advance; Advance; Advance]
                       (view 7 3 0)) <= 4.
Proof.
  apply (navigate_in_range
           [Advance; Advance; Retreat; Advance; Advance; Advance; Advance] (view 7 3 0)).
  cbn. lia.
Defined.

(** Every method keeps a carousel well kept. *)
Lemma movePrev_well_kept data : well_kept data -> well_kept (movePrev data).
Proof.
  intros (Hr & Hv & Hi). split; [|split].
  - unfold movePrev. destruct (_ >? _); [reflexivity | exact Hr].
  - now rewrite (proj2 (movePrev_frame data)).
  - now apply movePrev_inRange.
Qed.

Lemma moveNext_well_kept data : well_kept data -> well_kept (moveNext data).
Proof.
  intros (Hr & Hv & Hi). split; [|split].
  - unfold moveNext. destruct (_ <? _); [reflexivity | exact Hr].
  - now rewrite (proj2 (moveNext_frame data)).
  - now apply moveNext_inRange.
Qed.

Lemma handleResize_well_kept w data : well_kept data -> well_kept (handleResize w data).
Proof.
  intros (Hr & Hv & Hi). split; [|split].
  - unfold handleResize. destruct (negb _); [reflexivity | exact Hr].
  - unfold handleResize. destruct (negb _); [|exact Hv].
    cbn. apply getItemsPerView_range.
  - now apply handleResize_inRange.
Qed.

Lemma initialData_well_kept c p n w : well_kept (initialData c p n w).
Proof.
  split; [reflexivity|split].
  - apply getItemsPerView_range.
  - unfold inRange. cbn. lia.
Qed.

Lemma with_data_well_kept body carouselId (carousels : gmap string CarouselData) :
  (forall data, well_kept data -> well_kept (body data)) ->
  map_Forall (fun _ => well_kept) carousels ->
  map_Forall (fun _ => well_kept) (Manager.with_data body carouselId carousels).
Proof.
  intros Hbody Hall. unfold Manager.with_data.
  destruct (carousels !! carouselId) as [data|] eqn:E; [|exact Hall].
  apply map_Forall_insert_2; [|exact Hall].
  apply Hbody. exact (Hall _ _ E).
Qed.

Lemma call_well_kept c (carousels : gmap string CarouselData) :
  map_Forall (fun _ => well_kept) carousels ->
  map_Forall (fun _ => well_kept) (Manager.call c carousels).
Proof.
  intros Hall. destruct c as [cid [el|] [p|] [n|] w | cid | cid | cid w]; cbn;
    try exact Hall.
  - apply map_Forall_insert_2; [apply initialData_well_kept | exact Hall].
  - apply with_data_well_kept; [apply movePrev_well_kept | exact Hall].
  - apply with_data_well_kept; [apply moveNext_well_kept | exact Hall].
  - apply with_data_well_kept; [apply handleResize_well_kept | exact Hall].
Qed.

Lemma run_well_kept cs (carousels : gmap string CarouselData) :
  map_Forall (fun _ => well_kept) carousels ->
  map_Forall (fun _ => well_kept) (Manager.run cs carousels).
Proof.
  revert carousels. induction cs as [|c cs IH]; intros carousels Hall; cbn.
  - exact Hall.
  - apply IH, call_well_kept, Hall.
Qed.

(** Whatever the page has called on the manager, each carousel it
    holds is rendered, shows 1 to 3 items and has its index in range. *)
Lemma reachable_well_kept (carousels : gmap string CarouselData) carouselId data :
  Manager.reachable carousels -> carousels !! carouselId = Some data -> well_kept data.
Proof.
  intros [cs ->] Hlook.
  exact (run_well_kept cs ∅ (map_Forall_empty _) _ _ Hlook).
Qed.

(** A call on an id that the manager does not hold changes nothing. *)
Lemma with_data_unknown body carouselId (carousels : gmap string CarouselData) :
  carousels !! carouselId = None -> Manager.with_data body carouselId carousels = carousels.
Proof. unfold Manager.with_data. now intros ->. Qed.

(** A call on an id that it holds runs the body on that carousel and
    leaves the others alone. *)
Lemma with_data_lookup body carouselId other (carousels : gmap string CarouselData) :
  Manager.with_data body carouselId carousels !! other
  = if decide (carouselId = other) then body <$> carousels !! other else carousels !! other.
Proof.
  unfold Manager.with_data. destruct (decide (carouselId = other)) as [->|Hne].
  - destruct (carousels !! other) eqn:E; [now rewrite lookup_insert_eq | now rewrite E].
  - destruct (carousels !! carouselId); [now rewrite lookup_insert_ne | reflexivity].
Qed.

Lemma checked_upto_spec (check : Z -> bool) (n : positive) :
  checked_upto check n = true -> forall i, 0 <= i < Zpos n -> check i = true.
Proof.
  unfold checked_upto. rewrite Pos2Nat.inj_iter.
  assert (H : forall k,
            let st := Nat.iter k (fun st : Z * bool => (fst st + 1, snd st && check (fst st)))
                        (0, true) in
            fst st = Z.of_nat k /\
            (snd st = true -> forall i, 0 <= i < Z.of_nat k -> check i = true)).
  { induction k as [|k [IHf IHs]]; cbn zeta.
    - split; [reflexivity|]. intros _ i Hi. lia.
    - rewrite Nat.iter_succ. cbn [fst snd]. rewrite IHf. split; [lia|].
      intros Hacc i Hi. apply andb_true_iff in Hacc as [Hacc Hk].
      destruct (Z.eq_dec i (Z.of_nat k)) as [Heq|Hne]; [rewrite Heq; exact Hk|].
      apply IHs; [exact Hacc | lia]. }
  intros Hall i Hi. destruct (H (Pos.to_nat n)) as [_ Hs].
  apply Hs; [exact Hall|]. rewrite positive_nat_Z. exact Hi.
Qed.

(** The offsets for the indices [0 .. n - 1] at [v] items per view,
    checked one by one. *)
Lemma offsets_checked (check : PrimFloat.float -> Q -> bool) (v : Z) (n : positive) :
  checked_upto (fun i => check (- (number i * (100 / number v)))%float (idealOffset i v)) n
  = true ->
  forall data : CarouselData,
    itemsPerView data = v -> 0 <= currentIndex data < Zpos n ->
    check (visualOffsetPercent (updateCarousel data))
      (idealOffset (currentIndex data) (itemsPerView data)) = true.
Proof.
  intros Hall data Hv Hi. unfold visualOffsetPercent. cbn.
  unfold translateX_of. rewrite Hv.
  exact (checked_upto_spec _ _ Hall (currentIndex data) Hi).
Qed.

(** C8, as the code has it.  [updateCarousel] writes the binary64 value
    of [-(currentIndex * (100 / itemsPerView))], each operation rounded
    to nearest, and whatever the page has called on the manager, the
    offset applied to each carousel it holds is that value for the
    carousel's current index and items per view.  For an index from 0
    to 10000 this value is exactly the rational
    [-(100 * currentIndex / itemsPerView)] when there are 1 or 2 items
    per view, and within a relative error of [2^-52] of it when there
    are 3. *)
Theorem visualOffsetPercent_formula :
  (forall data : CarouselData,
     visualOffsetPercent (updateCarousel data)
     = (- (number (currentIndex data) * (100 / number (itemsPerView data))))%float) /\
  (forall (carousels : gmap string CarouselData) carouselId data,
     Manager.reachable carousels -> carousels !! carouselId = Some data ->
     1 <= itemsPerView data <= 3 /\
     visualOffsetPercent data
     = (- (number (currentIndex data) * (100 / number (itemsPerView data))))%float) /\
  (forall data : CarouselData,
     0 <= currentIndex data <= 10000 ->
     (itemsPerView data = 1 \/ itemsPerView data = 2 ->
      exactly (visualOffsetPercent (updateCarousel data))
        (idealOffset (currentIndex data) (itemsPerView data)) = true) /\
     (itemsPerView data = 3 ->
      nearly (visualOffsetPercent (updateCarousel data))
        (idealOffset (currentIndex data) (itemsPerView data)) = true)).
Proof.
  split; [reflexivity|]. split.
  - intros carousels cid data Hreach Hlook.
    destruct (reachable_well_kept _ _ _ Hreach Hlook) as (Hr & Hv & _).
    split; [exact Hv|]. unfold rendered in Hr.
    unfold visualOffsetPercent. now rewrite <- Hr at 1.
  - intros data Hi. split.
    + intros [Hv|Hv].
      * apply (offsets_checked exactly 1 10001); [vm_compute; reflexivity | exact Hv | lia].
      * apply (offsets_checked exactly 2 10001); [vm_compute; reflexivity | exact Hv | lia].
    + intros Hv.
      apply (offsets_checked nearly 3 10001); [vm_compute; reflexivity | exact Hv | lia].
Qed.

Lemma visualOffsetPercent_formula_witness :
  exactly (visualOffsetPercent (updateCarousel (view 7 2 5))) (idealOffset 5 2) = true /\
  nearly (visualOffsetPercent (updateCarousel (view 7 3 4))) (idealOffset 4 3) = true /\
  visualOffsetPercent
    (initialData (mkElement 7 0%float) (mkButton false) (mkButton false) 800)
  = (- (number 0 * (100 / number 2)))%float.
Proof.
  destruct visualOffsetPercent_formula as (_ & kept & values).
  split; [|split].
  - destruct (values (view 7 2 5)) as [exact_12 _]; [cbn; lia|].
    apply exact_12. right. reflexivity.
  - destruct (values (view 7 3 4)) as [_ near_3]; [cbn; lia|].
    apply near_3. reflexivity.
  - apply (kept (Manager.run
                   [Manager.Initialize "careerCarousel" (Some (mkElement 7 0%float))
                      (Some (mkButton false)) (Some (mkButton false)) 800] ∅)
                "careerCarousel").
    + exists [Manager.Initialize "careerCarousel" (Some (mkElement 7 0%float))
                (Some (mkButton false)) (Some (mkButton false)) 800].
      reflexivity.
    + cbn. apply lookup_insert_eq.
Defined.

(** C8 as stated fails for 3 items per view: at index 4 the code writes
    the float [-133.33333333333334], which is the rational
    [-4691249611844267 / 2^45] and not [-400 / 3]. *)
Lemma offset_is_not_the_rational :
  visualOffsetPercent (updateCarousel (view 7 3 4)) = (-0x1.0aaaaaaaaaaabp+7)%float /\
  exactValue (visualOffsetPercent (updateCarousel (view 7 3 4)))
  = Some ((-1) * inject_Z 4691249611844267 * Qpower 2 (-45))%Q /\
  ~ ((-1) * inject_Z 4691249611844267 * Qpower 2 (-45) == idealOffset 4 3)%Q.
Proof.
  split; [reflexivity|]. split; [reflexivity|].
  vm_compute. discriminate.
Qed.

End CarouselFacts.

(** * Properties of the language detection *)

Section LanguageFacts.
Import CVWebsite.
Local Open Scope string_scope.

(** [split] cuts at the first separator. *)
Lemma split_cut sep w rest :
  free_of sep w -> split sep (w +:+ String sep rest) = w :: split sep rest.
Proof.
  unfold free_of. induction w as [|c w IH]; simpl; intros Hfree.
  - now rewrite Ascii.eqb_refl.
  - destruct (Ascii.eqb_spec c sep) as [->|Hne]; [tauto|].
    rewrite IH by tauto. reflexivity.
Qed.

Lemma split_whole sep w : free_of sep w -> split sep w = [w].
Proof.
  unfold free_of. induction w as [|c w IH]; simpl; intros Hfree.
  - reflexivity.
  - destruct (Ascii.eqb_spec c sep) as [->|Hne]; [tauto|].
    rewrite IH by tauto. reflexivity.
Qed.

(** [split] never returns the empty list, so index 0 is always there. *)
Lemma split_nonempty sep s : split sep s <> [].
Proof.
  destruct s as [|c s]; simpl; [discriminate|].
  destruct (Ascii.eqb c sep); [discriminate|].
  destruct (split sep s); discriminate.
Qed.

(** [pathLang] is the first segment of a path that starts with a slash. *)
Lemma pathLang_first_segment seg rest :
  free_of "/" seg ->
  pathLang ("/" +:+ seg) = Some seg /\
  pathLang ("/" +:+ seg +:+ "/" +:+ rest) = Some seg.
Proof.
  intros Hfree. unfold pathLang. split.
  - change ("/" +:+ seg) with (String "/" seg). cbn.
    now rewrite (split_whole _ _ Hfree).
  - change ("/" +:+ seg +:+ "/" +:+ rest) with (String "/" (seg +:+ String "/" rest)).
    cbn. now rewrite (split_cut _ _ _ Hfree).
Qed.

(** [browserLang] is the primary subtag of a language tag. *)
Lemma browserLang_primary_subtag tag rest :
  free_of "-" tag ->
  browserLang tag = Some tag /\
  browserLang (tag +:+ "-" +:+ rest) = Some tag.
Proof.
  intros Hfree. unfold browserLang. split.
  - now rewrite (split_whole _ _ Hfree).
  - change (tag +:+ "-" +:+ rest) with (tag +:+ String "-" rest).
    now rewrite (split_cut _ _ _ Hfree).
Qed.

(** [includes] decides membership in the supported codes. *)
Lemma includes_supported x : includes supported x = true <-> is_supported x.
Proof.
  unfold is_supported. destruct x as [s|]; cbn.
  - rewrite !orb_true_iff, !String.eqb_eq. split.
    + intros H. exists s. split; [reflexivity|]. cbn.
      destruct H as [->|[->|[->|H]]]; auto. discriminate.
    + intros (l & [= <-] & Hin). cbn in Hin.
      destruct Hin as [<-|[<-|[<-|[]]]]; auto.
  - split; [discriminate|]. now intros (l & [=] & _).
Qed.

Lemma includes_unsupported x : includes supported x = false <-> ~ is_supported x.
Proof.
  rewrite <- includes_supported. destruct (includes supported x); split; intros;
    congruence.
Qed.

(** A supported stored value is truthy. *)
Lemma supported_truthy x : is_supported x -> truthy_string x = true.
Proof.
  intros (l & -> & Hin). cbn in *.
  destruct Hin as [<-|[<-|[<-|[]]]]; reflexivity.
Qed.

(** C10. [getDefaultLanguage] always returns one of ['en'], ['de'],
    ['fr'].  It returns the element at index 1 of the path split at
    slashes (the first segment of a path that starts with a slash) when
    that is a supported code; otherwise the stored ['cv-language'] value
    when that is a supported code; otherwise the part of
    [navigator.language] before its first hyphen when that is a
    supported code; otherwise ['en']. *)
Theorem getDefaultLanguage_precedence
    (pathname : string) (stored : option string) (navigatorLanguage : string) :
  let result := getDefaultLanguage pathname stored navigatorLanguage in
  is_supported result /\
  (is_supported (pathLang pathname) -> result = pathLang pathname) /\
  (~ is_supported (pathLang pathname) -> is_supported stored -> result = stored) /\
  (~ is_supported (pathLang pathname) -> ~ is_supported stored ->
     is_supported (browserLang navigatorLanguage) ->
     result = browserLang navigatorLanguage) /\
  (~ is_supported (pathLang pathname) -> ~ is_supported stored ->
     ~ is_supported (browserLang navigatorLanguage) ->
     result = Some "en") /\
  (forall seg rest, free_of "/" seg ->
     pathLang ("/" +:+ seg) = Some seg /\
     pathLang ("/" +:+ seg +:+ "/" +:+ rest) = Some seg) /\
  (forall tag rest, free_of "-" tag ->
     browserLang tag = Some tag /\
     browserLang (tag +:+ "-" +:+ rest) = Some tag).
Proof.
  cbn zeta. unfold getDefaultLanguage.
  destruct (includes supported (pathLang pathname)) eqn:Ep.
  { apply includes_supported in Ep. repeat split; try tauto;
      auto using pathLang_first_segment, browserLang_primary_subtag;
      try apply pathLang_first_segment; try apply browserLang_primary_subtag; auto. }
  apply includes_unsupported in Ep.
  destruct (truthy_string stored && includes supported stored) eqn:Es.
  { apply andb_true_iff in Es as [_ Es]. apply includes_supported in Es.
    repeat split; try tauto;
      try apply pathLang_first_segment; try apply browserLang_primary_subtag; auto. }
  assert (Hs : ~ is_supported stored).
  { intros H. rewrite (supported_truthy _ H) in Es. cbn in Es.
    apply includes_unsupported in Es. tauto. }
  destruct (includes supported (browserLang navigatorLanguage)) eqn:Eb.
  { apply includes_supported in Eb. repeat split; try tauto;
      try apply pathLang_first_segment; try apply browserLang_primary_subtag; auto. }
  apply includes_unsupported in Eb.
  repeat split; try tauto;
    try apply pathLang_first_segment; try apply browserLang_primary_subtag; auto.
  exists "en". split; [reflexivity|]. cbn. auto.
Qed.

Lemma getDefaultLanguage_precedence_witness :
  getDefaultLanguage "/fr/career/" (Some "de") "en-US" = Some "fr" /\
  getDefaultLanguage "/cv/" (Some "de") "en-US" = Some "de" /\
  getDefaultLanguage "/cv/" None "fr-CA" = Some "fr" /\
  getDefaultLanguage "/cv/" (Some "es") "es-ES" = Some "en".
Proof.
  assert (Hcv : ~ is_supported (pathLang "/cv/"))
    by (apply includes_unsupported; reflexivity).
  assert (Hnone : ~ is_supported None)
    by (apply includes_unsupported; reflexivity).
  assert (Hes : ~ is_supported (Some "es"))
    by (apply includes_unsupported; reflexivity).
  split; [|split; [|split]].
  - apply (getDefaultLanguage_precedence "/fr/career/" (Some "de") "en-US").
    apply includes_supported. reflexivity.
  - apply (getDefaultLanguage_precedence "/cv/" (Some "de") "en-US").
    + exact Hcv.
    + apply includes_supported. reflexivity.
  - apply (getDefaultLanguage_precedence "/cv/" None "fr-CA").
    + exact Hcv.
    + exact Hnone.
    + apply includes_supported. reflexivity.
  - apply (getDefaultLanguage_precedence "/cv/" (Some "es") "es-ES").
    + exact Hcv.
    + exact Hes.
    + apply includes_unsupported. reflexivity.
Defined.

End LanguageFacts.

(** * Properties of the content loader *)

Section LoaderFacts.
Import CVWebsite.
Local Open Scope string_scope.

(** The [catch] block of [loadContentData] logs and throws the error
    again: the [try] changes nothing. *)
Lemma try_catch_rethrow {A} (body : M A) st :
  try_catch body (fun error => throw error) st = body st.
Proof. unfold try_catch, throw. destruct (body st) as [[[a|e] st']|]; reflexivity. Qed.

(** One level of [loadContentData], with the monad unfolded. *)
Lemma loadContentData_fuel_step fuel page language st :
  loadContentData_fuel (S fuel) page language st =
  match if_truthy (contentCache st !! cacheKey_of language) with
  | Some data => Some (Returned data, st)
  | None =>
      match embedded page language with
      | Some data => Some (Returned data, store (cacheKey_of language) data st)
      | None =>
          match fetch page (url_of page language) with
          | None =>
              Some (Thrown (FetchFailed (url_of page language)),
                    log_fetch (url_of page language) st)
          | Some response =>
              if ok response then
                match json response with
                | Some data =>
                    Some (Returned data,
                          store (cacheKey_of language) data
                            (log_fetch (url_of page language) st))
                | None =>
                    Some (Thrown (JsonFailed (url_of page language)),
                          log_fetch (url_of page language) st)
                end
              else if bool_decide (language ≠ "en") then
                loadContentData_fuel fuel page "en" (log_fetch (url_of page language) st)
              else Some (Thrown (NoDataAvailable language), log_fetch (url_of page language) st)
          end
      end
  end.
Proof.
  cbn [loadContentData_fuel]. unfold mbind at 1, M_bind at 1, cache_get.
  destruct (if_truthy _) as [data|]; [reflexivity|].
  rewrite try_catch_rethrow.
  destruct (embedded page language) as [data|]; [reflexivity|].
  cbn zeta. unfold mbind at 1, M_bind at 1, await_fetch.
  destruct (fetch page _) as [response|]; [|reflexivity].
  cbn zeta. destruct (ok response); [|destruct (bool_decide _); reflexivity].
  unfold await_json. destruct (json response); reflexivity.
Qed.

(** The call on ['en'] never recurses. *)
Lemma load_en_fuel fuel page st :
  loadContentData_fuel (S fuel) page "en" st = loadContentData_fuel 1 page "en" st.
Proof. rewrite !loadContentData_fuel_step. reflexivity. Qed.

Lemma loadContentData_step page language st :
  loadContentData page language st =
  match if_truthy (contentCache st !! cacheKey_of language) with
  | Some data => Some (Returned data, st)
  | None =>
      match embedded page language with
      | Some data => Some (Returned data, store (cacheKey_of language) data st)
      | None =>
          match fetch page (url_of page language) with
          | None =>
              Some (Thrown (FetchFailed (url_of page language)),
                    log_fetch (url_of page language) st)
          | Some response =>
              if ok response then
                match json response with
                | Some data =>
                    Some (Returned data,
                          store (cacheKey_of language) data
                            (log_fetch (url_of page language) st))
                | None =>
                    Some (Thrown (JsonFailed (url_of page language)),
                          log_fetch (url_of page language) st)
                end
              else if bool_decide (language ≠ "en") then
                loadContentData page "en" (log_fetch (url_of page language) st)
              else Some (Thrown (NoDataAvailable language), log_fetch (url_of page language) st)
          end
      end
  end.
Proof.
  unfold loadContentData. rewrite loadContentData_fuel_step.
  now rewrite (load_en_fuel 1).
Qed.

Lemma load_en_returns fuel page st :
  exists o st', loadContentData_fuel (S fuel) page "en" st = Some (o, st').
Proof.
  rewrite loadContentData_fuel_step.
  destruct (if_truthy _); [eauto|]. destruct (embedded _ _); [eauto|].
  cbn zeta. destruct (fetch _ _) as [r|]; [|eauto].
  destruct (ok r); [destruct (json r); eauto|].
  rewrite bool_decide_eq_false_2 by (intros H; now apply H). eauto.
Qed.

Lemma load_returns fuel page language st :
  exists o st', loadContentData_fuel (S (S fuel)) page language st = Some (o, st').
Proof.
  rewrite loadContentData_fuel_step.
  destruct (if_truthy _); [eauto|]. destruct (embedded _ _); [eauto|].
  cbn zeta. destruct (fetch _ _) as [r|]; [|eauto].
  destruct (ok r); [destruct (json r); eauto|].
  destruct (bool_decide _); [apply load_en_returns | eauto].
Qed.

Lemma load_fuel_enough fuel page language st :
  (2 <= fuel)%nat ->
  loadContentData_fuel fuel page language st = loadContentData page language st.
Proof.
  intros H. destruct fuel as [|[|fuel]]; try lia.
  unfold loadContentData.
  rewrite (loadContentData_fuel_step (S fuel) page language),
    (loadContentData_fuel_step 1 page language).
  now rewrite (load_en_fuel fuel).
Qed.

Lemma fetches_of_unchanged page language st o :
  loadContentData page language st = Some (o, st) -> fetches_of page language st = [].
Proof. unfold fetches_of. intros ->. cbn. apply drop_all. Qed.

Lemma fetches_of_logged page language st o st' urls :
  loadContentData page language st = Some (o, st') ->
  fetched st' = (fetched st ++ urls)%list ->
  fetches_of page language st = urls.
Proof. unfold fetches_of. intros -> E. cbn. rewrite E. apply drop_app_length. Qed.

(** The fetches of a call on ['en']. *)
Lemma load_en_fetches page st :
  exists o st', loadContentData page "en" st = Some (o, st') /\
    (fetched st' = fetched st \/ fetched st' = (fetched st ++ [url_of page "en"])%list).
Proof.
  rewrite loadContentData_step.
  destruct (if_truthy _); [eauto 6|]. destruct (embedded _ _); [eauto 6|].
  destruct (fetch _ _) as [r|]; [|eauto 6].
  destruct (ok r); [destruct (json r); eauto 6|].
  rewrite bool_decide_eq_false_2 by (intros H; now apply H). eauto 6.
Qed.

(** The loader as it is written.  The call always returns or throws, with
    two levels of recursion and with any more.  A truthy cache entry is
    returned at once and the state stays as it is.  On a miss the
    embedded entry is used when there is one; failing that, one fetch is
    made: an ok response with a body that parses is cached and
    returned; a rejected fetch or a body that does not parse throws to
    the caller with no fallback; a response that is not ok gives, for a
    language other than ['en'], the call on ['en'] (which never recurses)
    and, for ['en'], the exception.  So a call fetches nothing, or the
    language's file, or that file and then the English one.  When ['es']
    has no document and the call on ['en'] returns a document, the call
    on ['es'] returns that document. *)
Theorem loadContentData_fallback (page : Page) (language : string) (st : State) :
  let url := url_of page language in
  (exists o st', loadContentData page language st = Some (o, st')) /\
  (forall fuel, (2 <= fuel)%nat ->
     loadContentData_fuel fuel page language st = loadContentData page language st) /\
  (forall data, if_truthy (contentCache st !! cacheKey_of language) = Some data ->
     loadContentData page language st = Some (Returned data, st)) /\
  (cache_miss language st ->
     (forall data, embedded page language = Some data ->
        loadContentData page language st
        = Some (Returned data, store (cacheKey_of language) data st)) /\
     (forall response data,
        embedded page language = None -> fetch page url = Some response ->
        ok response = true -> json response = Some data ->
        loadContentData page language st
        = Some (Returned data, store (cacheKey_of language) data (log_fetch url st))) /\
     (forall e, read_raises page language e ->
        loadContentData page language st = Some (Thrown e, log_fetch url st)) /\
     (no_document page language -> language <> "en" ->
        loadContentData page language st = loadContentData page "en" (log_fetch url st)) /\
     (no_document page language -> language = "en" ->
        loadContentData page language st
        = Some (Thrown (NoDataAvailable "en"), log_fetch url st))) /\
  (fetches_of page language st = [] \/
   fetches_of page language st = [url] \/
   falls_back page language st /\ fetches_of page language st = [url; url_of page "en"]) /\
  (language = "es" -> cache_miss language st -> no_document page language ->
   forall data st', loadContentData page "en" (log_fetch url st) = Some (Returned data, st') ->
     loadContentData page language st = Some (Returned data, st')).
Proof.
  cbn zeta. unfold cache_miss, no_document, read_raises.
  split; [apply (load_returns 0)|].
  split; [intros fuel; apply load_fuel_enough|].
  split; [intros data E; rewrite loadContentData_step; now rewrite E|].
  split; [intros Hmiss; repeat split|split].
  - intros data E. rewrite loadContentData_step. now rewrite Hmiss, E.
  - intros r data E F Hok J. rewrite loadContentData_step.
    now rewrite Hmiss, E, F, Hok, J.
  - intros e [E [[F ->]|(r & F & Hok & J & ->)]]; rewrite loadContentData_step.
    + now rewrite Hmiss, E, F.
    + now rewrite Hmiss, E, F, Hok, J.
  - intros [E (r & F & Hok)] Hne. rewrite loadContentData_step.
    rewrite Hmiss, E, F, Hok. now rewrite bool_decide_eq_true_2.
  - intros [E (r & F & Hok)] ->. rewrite loadContentData_step.
    rewrite Hmiss, E, F, Hok. reflexivity.
  - pose proof (loadContentData_step page language st) as Hstep.
    destruct (if_truthy _) eqn:Hc.
    { left. eapply fetches_of_unchanged, Hstep. }
    destruct (embedded _ _) eqn:E.
    { left. eapply fetches_of_logged; [exact Hstep|]. cbn. now rewrite app_nil_r. }
    destruct (fetch _ _) as [r|] eqn:F.
    2:{ right; left. eapply fetches_of_logged; [exact Hstep|reflexivity]. }
    destruct (ok r) eqn:Hok.
    { right; left. destruct (json r);
        (eapply fetches_of_logged; [exact Hstep|reflexivity]). }
    destruct (bool_decide_reflect (language ≠ "en")) as [Hne|Heq].
    2:{ right; left. eapply fetches_of_logged; [exact Hstep|reflexivity]. }
    destruct (load_en_fetches page (log_fetch (url_of page language) st))
      as (o & st' & Hen & [Hf|Hf]); rewrite Hen in Hstep.
    + right; left. eapply fetches_of_logged; [exact Hstep|]. now rewrite Hf.
    + right; right. split; [unfold falls_back, cache_miss, no_document; eauto 8|].
      eapply fetches_of_logged; [exact Hstep|]. rewrite Hf. cbn.
      now rewrite <- app_assoc.
  - intros -> Hmiss [E (r & F & Hok)] data st' Hen.
    rewrite loadContentData_step, Hmiss, E, F, Hok. exact Hen.
Qed.

Lemma loadContentData_fallback_witness :
  loadContentData english_only_page "es" fresh
  = Some (Returned example_document,
          store "content-en" example_document (log_fetch "/assets/data/es.json" fresh)) /\
  loadContentData offline_page "es" fresh
  = Some (Thrown (FetchFailed "/assets/data/es.json"),
          log_fetch "/assets/data/es.json" fresh).
Proof.
  split.
  - destruct (loadContentData_fallback english_only_page "es" fresh)
      as (_ & _ & _ & _ & _ & scenario).
    apply scenario.
    + reflexivity.
    + reflexivity.
    + split; [reflexivity|]. eexists. split; reflexivity.
    + reflexivity.
  - destruct (loadContentData_fallback offline_page "es" fresh)
      as (_ & _ & _ & miss & _).
    destruct miss as (_ & _ & raises & _); [reflexivity|].
    apply raises. split; [reflexivity|]. left. split; reflexivity.
Defined.


(** C2.  The read fails and the language is not ['en'], so the call
    should retry with ['en'] (the code's own comment: try English if the
    current language fails).  With English embedded and the network
    down it does not: the fetch for ['es'] rejects and
    [loadContentData('es')] throws that error after its one fetch,
    although the call on ['en'] from there returns the English
    document. *)
Lemma rejected_fetch_no_fallback :
  loadContentData offline_page "es" fresh
    = Some (Thrown (FetchFailed "/assets/data/es.json"),
            log_fetch "/assets/data/es.json" fresh) /\
  loadContentData offline_page "en" (log_fetch "/assets/data/es.json" fresh)
    = Some (Returned example_document,
            store "content-en" example_document (log_fetch "/assets/data/es.json" fresh)).
Proof. split; vm_compute; reflexivity. Qed.

End LoaderFacts.

(** * Overlapping calls of the loader *)

Section AsyncFacts.
Import CVWebsite Async.
Local Open Scope string_scope.


Lemma take_task_last at_stage id tasks task :
  Forall (fun t => call t <> id) tasks ->
  take_task at_stage id (tasks ++ [task])
  = if Nat.eqb (call task) id && at_stage (stage task) then Some (task, tasks) else None.
Proof.
  induction 1 as [|t tasks Ht _ IH]; simpl.
  - reflexivity.
  - rewrite (proj2 (Nat.eqb_neq _ _) Ht). cbn [andb]. rewrite IH.
    now destruct (_ && _).
Qed.













(** Why the reuse needs that no invocation for the language is
    suspended: two calls for ['de'] that overlap both miss the cache and
    both fetch, and the one whose body arrives last overwrites the entry
    that the other has written and returned. *)
Lemma overlapping_calls_both_fetch :
  let answers doc := Some (mkResponse true (Some (VString doc))) in
  let sys := run [ Call 1 english_only_page "de"; Call 2 english_only_page "de";
                   FetchSettles 1 english_only_page (answers "first");
                   FetchSettles 2 english_only_page (answers "second");
                   JsonSettles 1; JsonSettles 2 ] (idle fresh) in
  fetched (state sys) = ["/assets/data/de.json"; "/assets/data/de.json"] /\
  map outcome (settled sys) = [Returned (VString "first"); Returned (VString "second")] /\
  contentCache (state sys) !! cacheKey_of "de" = Some (VString "second").
Proof. repeat split; vm_compute; reflexivity. Qed.

Lemma take_task_none at_stage id tasks :
  Forall (fun t => call t <> id) tasks -> take_task at_stage id tasks = None.
Proof.
  induction 1 as [|t tasks Ht _ IH]; simpl; [reflexivity|].
  rewrite (proj2 (Nat.eqb_neq _ _) Ht). cbn [andb]. now rewrite IH.
Qed.

Lemma step_without_task id page result sys :
  Forall (fun t => call t <> id) (pending sys) ->
  step (FetchSettles id page result) sys = sys /\ step (JsonSettles id) sys = sys.
Proof. intros H. cbn [step]. now rewrite !take_task_none. Qed.

Lemma run_without_task id sys (evs : list Event) :
  Forall (fun t => call t <> id) (pending sys) ->
  Forall (fun ev => (exists page result, ev = FetchSettles id page result) \/
                    ev = JsonSettles id) evs ->
  run evs sys = sys.
Proof.
  intros Hp. induction 1 as [|ev evs Hev _ IH]; cbn [run]; [reflexivity|].
  destruct (step_without_task id (mkPage None "" (fun _ => None)) None sys Hp) as [_ Hj].
  destruct Hev as [(page & result & ->)| ->].
  - destruct (step_without_task id page result sys Hp) as [-> _]. exact IH.
  - rewrite Hj. exact IH.
Qed.

Ltac finish_with Hrest Hf Hj :=
  apply Hrest;
    [reflexivity
    |repeat (apply List.Forall_cons; [first [apply Hf | exact Hj]|]); apply List.Forall_nil].

Lemma run_cons ev evs sys : run (ev :: evs) sys = run evs (step ev sys).
Proof. reflexivity. Qed.

(** A call that nothing interrupts, on a page that stays as it is, ends
    as [loadContentData] says: the same outcome and the same state. *)
Lemma alone_is_loadContentData page id lang sys o st' :
  Forall (fun t => call t <> id) (pending sys) ->
  loadContentData page lang (state sys) = Some (o, st') ->
  exists l,
    alone page id lang sys
    = mkSystem st' (pending sys) (settled sys ++ [mkSettled id lang l o]) /\
    (l = lang \/ l = "en").
Proof.
  intros Hp. rewrite loadContentData_step. unfold alone.
  assert (Hrest : forall sys' evs,
            pending sys' = pending sys ->
            Forall (fun ev => (exists page result, ev = FetchSettles id page result) \/
                              ev = JsonSettles id) evs ->
            run evs sys' = sys').
  { intros sys' evs E. apply run_without_task. now rewrite E. }
  assert (Hf : forall page result, (exists p r, FetchSettles id page result = FetchSettles id p r) \/
                 FetchSettles id page result = JsonSettles id) by (left; eauto).
  assert (Hj : (exists p r, JsonSettles id = FetchSettles id p r) \/
               JsonSettles id = JsonSettles id) by (now right).
  rewrite run_cons. cbn [step]. unfold start at 1.
  destruct (if_truthy (contentCache (state sys) !! cacheKey_of lang)) as [d|] eqn:Hc.
  { intros [= <- <-]. exists lang. split; [|now left].
    finish_with Hrest Hf Hj. }
  destruct (embedded page lang) as [d|] eqn:He.
  { intros [= <- <-]. exists lang. split; [|now left].
    finish_with Hrest Hf Hj. }
  rewrite run_cons. cbn [step].
  cbn [pending]. rewrite take_task_last by exact Hp. cbn [call stage awaits_fetch].
  rewrite Nat.eqb_refl. cbn [andb].
  destruct (fetch page (url_of page lang)) as [r|] eqn:Hfe.
  2:{ intros [= <- <-]. exists lang. split; [|now left].
      finish_with Hrest Hf Hj. }
  cbn [requested language url state settled].
  destruct (ok r) eqn:Hok.
  { rewrite run_cons. cbn [step]. cbn [pending]. rewrite take_task_last by exact Hp.
    cbn [call stage awaits_json]. rewrite Nat.eqb_refl. cbn [andb].
    cbn [requested language url state settled stage].
    destruct (json r) as [d|]; intros [= <- <-]; exists lang; (split; [|now left]);
      finish_with Hrest Hf Hj. }
  destruct (bool_decide_reflect (lang ≠ "en")) as [Hne|Heq].
  2:{ intros [= <- <-]. exists lang. split; [|now left].
      finish_with Hrest Hf Hj. }
  rewrite loadContentData_step. unfold start.
  cbn [state pending settled log_fetch contentCache].
  destruct (if_truthy (contentCache (state sys) !! cacheKey_of "en")) as [d|] eqn:Hcen.
  { intros [= <- <-]. exists "en". split; [|now right].
    finish_with Hrest Hf Hj. }
  destruct (embedded page "en") as [d|] eqn:Heen.
  { intros [= <- <-]. exists "en". split; [|now right].
    finish_with Hrest Hf Hj. }
  rewrite run_cons. cbn [step]. cbn [pending].
  assert (Hnone : take_task awaits_json id
                    (pending sys ++ [mkTask id lang "en" (url_of page "en") AwaitFetch]) = None).
  { rewrite take_task_last by exact Hp. cbn. now rewrite andb_false_r. }
  rewrite Hnone. rewrite run_cons. cbn [step]. cbn [pending].
  rewrite take_task_last by exact Hp. cbn [call stage awaits_fetch].
  rewrite Nat.eqb_refl. cbn [andb].
  cbn [requested language url state settled].
  destruct (fetch page (url_of page "en")) as [r'|].
  2:{ intros [= <- <-]. exists "en". split; [|now right].
      finish_with Hrest Hf Hj. }
  destruct (ok r').
  { rewrite run_cons. cbn [step]. cbn [pending]. rewrite take_task_last by exact Hp.
    cbn [call stage awaits_json]. rewrite Nat.eqb_refl. cbn [andb].
    cbn [requested language url state settled stage].
    destruct (json r') as [d|]; intros [= <- <-]; exists "en"; (split; [|now right]);
      reflexivity. }
  rewrite !bool_decide_eq_false_2 by (intros H; now apply H).
  intros [= <- <-]. exists "en". split; [|now right].
  finish_with Hrest Hf Hj.
Qed.

End AsyncFacts.

(** * More on the carousel *)

Section CarouselMore.
Import Carousel.

Ltac ztests :=
  rewrite ?Z.gtb_ltb, ?Z.geb_leb in *;
  repeat match goal with
  | |- context [?a <? ?b] => destruct (Z.ltb_spec a b)
  | |- context [?a <=? ?b] => destruct (Z.leb_spec a b)
  | |- context [?a =? ?b] => destruct (Z.eqb_spec a b)
  end.

Lemma moveNext_index data :
  currentIndex (moveNext data)
  = if currentIndex data <? maxIndex data then currentIndex data + 1 else currentIndex data.
Proof. unfold moveNext. destruct (_ <? _); reflexivity. Qed.

Lemma movePrev_index data :
  currentIndex (movePrev data)
  = if currentIndex data >? 0 then currentIndex data - 1 else currentIndex data.
Proof. unfold movePrev. destruct (_ >? _); reflexivity. Qed.

Lemma moveNext_maxIndex data : maxIndex (moveNext data) = maxIndex data.
Proof.
  unfold maxIndex. destruct (moveNext_frame data) as [-> ->]. reflexivity.
Qed.

(** [k] presses of next move the index forward by [k] but not beyond
    [maxIndex]; an index that is already at or beyond [maxIndex] stays
    where it is.  Item count and items per view do not change. *)
Theorem advance_saturates (k : nat) (data : CarouselData) :
  currentIndex (navigate (repeat Advance k) data)
  = Z.max (currentIndex data) (Z.min (currentIndex data + Z.of_nat k) (maxIndex data)) /\
  itemCount (navigate (repeat Advance k) data) = itemCount data /\
  itemsPerView (navigate (repeat Advance k) data) = itemsPerView data.
Proof.
  revert data. induction k as [|k IH]; intros data.
  - cbn. repeat split. lia.
  - cbn [repeat navigate nav]. destruct (IH (moveNext data)) as (Hi & Hc & Hv).
    rewrite Hi, Hc, Hv, moveNext_maxIndex, moveNext_index.
    destruct (moveNext_frame data) as [-> ->]. repeat split.
    destruct (Z.ltb_spec (currentIndex data) (maxIndex data)); lia.
Qed.

(** [k] presses of previous move the index back by [k] but not below
    0; an index that is already at or below 0 stays where it is. *)
Theorem retreat_saturates (k : nat) (data : CarouselData) :
  currentIndex (navigate (repeat Retreat k) data)
  = Z.min (currentIndex data) (Z.max (currentIndex data - Z.of_nat k) 0).
Proof.
  revert data. induction k as [|k IH]; intros data.
  - cbn. lia.
  - cbn [repeat navigate nav]. rewrite IH, movePrev_index.
    destruct (Z.gtb_spec (currentIndex data) 0); lia.
Qed.

(** On a rendered carousel with a non-negative index, a next that
    moves followed by a previous, and a previous that moves followed by
    a next, give back the carousel data as it was, DOM fields
    included. *)
Theorem next_prev_round_trip (data : CarouselData) :
  rendered data -> 0 <= currentIndex data ->
  (currentIndex data < maxIndex data -> movePrev (moveNext data) = data) /\
  (0 < currentIndex data <= maxIndex data -> moveNext (movePrev data) = data).
Proof.
  intros Hr H0. unfold rendered in Hr. split; intros H.
  - unfold moveNext. rewrite (proj2 (Z.ltb_lt _ _) H).
    unfold movePrev. cbn [currentIndex updateCarousel set_currentIndex].
    rewrite (proj2 (Z.gtb_gt _ _)) by lia.
    rewrite <- Hr at 4. unfold updateCarousel, set_currentIndex, translateX_of, maxIndex, itemCount.
    cbn. replace (currentIndex data + 1 - 1) with (currentIndex data) by lia. reflexivity.
  - unfold movePrev. rewrite (proj2 (Z.gtb_gt _ _)) by lia.
    unfold moveNext. cbn [currentIndex updateCarousel set_currentIndex].
    replace (maxIndex _) with (maxIndex data) by reflexivity.
    rewrite (proj2 (Z.ltb_lt _ _)) by lia.
    rewrite <- Hr at 4. unfold updateCarousel, set_currentIndex, translateX_of, maxIndex, itemCount.
    cbn. replace (currentIndex data - 1 + 1) with (currentIndex data) by lia. reflexivity.
Qed.

Lemma next_prev_round_trip_witness :
  movePrev (moveNext (view 7 3 2)) = view 7 3 2 /\
  moveNext (movePrev (view 7 3 4)) = view 7 3 4.
Proof.
  destruct (next_prev_round_trip (view 7 3 2)) as [H _]; [reflexivity | cbn; lia |].
  destruct (next_prev_round_trip (view 7 3 4)) as [_ H']; [reflexivity | cbn; lia |].
  split; [apply H | apply H']; unfold maxIndex, itemCount; cbn; lia.
Defined.

(** On a rendered carousel with its index in range, both buttons are
    disabled exactly when all items fit in the view; when they do not
    fit, at least one button is enabled. *)
Theorem buttons_disabled_iff_fits (data : CarouselData) :
  rendered data -> inRange data ->
  (prevEnabled data = false /\ nextEnabled data = false
   <-> itemCount data <= itemsPerView data) /\
  (itemsPerView data < itemCount data ->
   prevEnabled data = true \/ nextEnabled data = true).
Proof.
  intros Hr Hi. unfold rendered in Hr. unfold inRange in Hi.
  unfold prevEnabled, nextEnabled. rewrite <- Hr. cbn. unfold maxIndex.
  ztests; cbn; split; try split; intros; try lia; intuition (try discriminate; try lia).
Qed.

Lemma buttons_disabled_iff_fits_witness :
  (prevEnabled (view 2 3 0) = false /\ nextEnabled (view 2 3 0) = false) /\
  (prevEnabled (view 7 3 0) = true \/ nextEnabled (view 7 3 0) = true).
Proof.
  destruct (buttons_disabled_iff_fits (view 2 3 0)) as [Hfits _];
    [reflexivity | unfold inRange; cbn; lia |].
  destruct (buttons_disabled_iff_fits (view 7 3 0)) as [_ Hmore];
    [reflexivity | unfold inRange; cbn; lia |].
  split; [apply Hfits | apply Hmore]; unfold itemCount; cbn; lia.
Defined.

(** After [handleResize] the stored items per view are those of the
    new width, whether or not they changed; a second resize at the same
    width changes nothing; the item count is kept. *)
Theorem handleResize_tracks_width (w : Z) (data : CarouselData) :
  itemsPerView (handleResize w data) = getItemsPerView w /\
  handleResize w (handleResize w data) = handleResize w data /\
  itemCount (handleResize w data) = itemCount data.
Proof.
  unfold handleResize.
  destruct (Z.eqb_spec (getItemsPerView w) (itemsPerView data)) as [E|E]; cbn [negb].
  - rewrite (proj2 (Z.eqb_eq _ _) E). cbn. auto.
  - cbn. rewrite Z.eqb_refl. cbn. auto.
Qed.

(** A wider viewport never shows fewer items. *)
Theorem getItemsPerView_monotone (w1 w2 : Z) :
  w1 <= w2 -> getItemsPerView w1 <= getItemsPerView w2.
Proof. unfold getItemsPerView. intros. ztests; lia. Qed.

Lemma getItemsPerView_monotone_witness :
  getItemsPerView 500 <= getItemsPerView 1200.
Proof. apply (getItemsPerView_monotone 500 1200). lia. Defined.

End CarouselMore.

(** * Listeners and the manager's map *)

Section ListenerFacts.
Import Carousel.
Local Open Scope string_scope.

(** The manager's calls on a carousel that it holds are the methods on
    that carousel's data. *)
Lemma run_next_lookup k carouselId (carousels : gmap string CarouselData) data :
  carousels !! carouselId = Some data ->
  Manager.run (repeat (Manager.Next carouselId) k) carousels !! carouselId
  = Some (navigate (repeat Advance k) data).
Proof.
  revert carousels data. induction k as [|k IH]; intros carousels data Hlook.
  - exact Hlook.
  - cbn [repeat Manager.run Manager.call navigate nav].
    apply IH. unfold Manager.moveNext. rewrite with_data_lookup.
    rewrite decide_True by reflexivity. now rewrite Hlook.
Qed.

Lemma append_inj_r (s t1 t2 : string) : s +:+ t1 = s +:+ t2 -> t1 = t2.
Proof. induction s as [|c s IH]; cbn; [auto|]. intros [= H]. auto. Qed.

Lemma prevId_nextId carouselId : Listeners.prevId carouselId <> Listeners.nextId carouselId.
Proof.
  unfold Listeners.prevId, Listeners.nextId. intros H.
  apply append_inj_r in H. discriminate.
Qed.

(** What [k] initialisations of one carousel leave behind. *)
Lemma initialize_repeatedly doc w carouselId carousel prev next k :
  Listeners.elementById doc carouselId = Some carousel ->
  Listeners.buttonById doc (Listeners.prevId carouselId) = Some prev ->
  Listeners.buttonById doc (Listeners.nextId carouselId) = Some next ->
  Nat.iter (S k) (Listeners.initializeCarousel doc w carouselId) Listeners.fresh
  = Listeners.mkDom
      {[ carouselId := initialData carousel prev next w ]}
      (<[Listeners.nextId carouselId := repeat (Manager.Next carouselId) (S k)]>
         (<[Listeners.prevId carouselId := repeat (Manager.Prev carouselId) (S k)]> ∅))
      (repeat carouselId (S k)).
Proof.
  intros He Hp Hn. pose proof (prevId_nextId carouselId) as Hne.
  induction k as [|k IH].
  - cbn [Nat.iter nat_rect]. unfold Listeners.initializeCarousel. rewrite He, Hp, Hn.
    cbn. unfold Listeners.addClickListener.
    rewrite lookup_empty. cbn. rewrite lookup_insert_ne by exact Hne.
    rewrite lookup_empty. cbn. now rewrite insert_empty.
  - rewrite Nat.iter_succ, IH. unfold Listeners.initializeCarousel.
    rewrite He, Hp, Hn. cbn [Listeners.carousels Listeners.clickListeners
                             Listeners.resizeListeners].
    f_equal.
    + rewrite <- insert_empty. apply insert_insert_eq.
    + assert (Hne' : Listeners.nextId carouselId <> Listeners.prevId carouselId)
        by (intros E; now apply Hne).
      unfold Listeners.addClickListener.
      rewrite (lookup_insert_ne _ _ _ _ Hne'), lookup_insert_eq. cbn [default].
      rewrite (insert_insert_ne _ (Listeners.prevId carouselId)) by exact Hne.
      rewrite insert_insert_eq, lookup_insert_eq. cbn [default].
      rewrite insert_insert_eq. unfold id.
      rewrite <- !repeat_cons. reflexivity.
    + rewrite <- repeat_cons. reflexivity.
Qed.

(** Every [initializeCarousel] adds its own pair of click listeners:
    after [k] initialisations of a carousel (one per rendering of the
    page) the next button has [k] listeners, and one click on it runs
    [moveNext] [k] times, taking the index from 0 to [min(k, maxIndex)]. *)
Theorem click_after_initializations doc w carouselId carousel prev next (k : nat) :
  Listeners.elementById doc carouselId = Some carousel ->
  Listeners.buttonById doc (Listeners.prevId carouselId) = Some prev ->
  Listeners.buttonById doc (Listeners.nextId carouselId) = Some next ->
  let dom := Nat.iter (S k) (Listeners.initializeCarousel doc w carouselId) Listeners.fresh in
  Listeners.clickListeners dom !! Listeners.nextId carouselId
  = Some (repeat (Manager.Next carouselId) (S k)) /\
  exists data,
    Listeners.carousels (Listeners.click (Listeners.nextId carouselId) dom) !! carouselId
    = Some data /\
    currentIndex data
    = Z.min (Z.of_nat (S k)) (maxIndex (initialData carousel prev next w)).
Proof.
  intros He Hp Hn dom. subst dom.
  rewrite (initialize_repeatedly doc w carouselId carousel prev next k He Hp Hn).
  cbn [Listeners.clickListeners Listeners.carousels Listeners.click].
  rewrite lookup_insert_eq. split; [reflexivity|]. cbn [default].
  eexists. split.
  - apply run_next_lookup. apply lookup_singleton_eq.
  - destruct (advance_saturates (S k) (initialData carousel prev next w)) as [-> _].
    change (currentIndex (initialData carousel prev next w)) with 0%Z.
    unfold maxIndex. lia.
Qed.

Lemma click_after_initializations_witness :
  exists data,
    Listeners.carousels
      (Listeners.click "careerNext"
         (Nat.iter 2
            (Listeners.initializeCarousel
               (Listeners.mkDocument (fun _ => Some (mkElement 7 0%float))
                  (fun _ => Some (mkButton false)))
               1200 "careerCarousel")
            Listeners.fresh))
    !! "careerCarousel" = Some data /\
    currentIndex data = 2%Z.
Proof.
  destruct (click_after_initializations
              (Listeners.mkDocument (fun _ => Some (mkElement 7 0%float))
                 (fun _ => Some (mkButton false)))
              1200 "careerCarousel" (mkElement 7 0%float) (mkButton false) (mkButton false) 1)
    as [_ (data & Hlook & Hidx)]; try reflexivity.
  exists data. split; [exact Hlook | exact Hidx].
Defined.

Lemma run_resize_lookup k w carouselId (carousels : gmap string CarouselData) data :
  carousels !! carouselId = Some data ->
  Manager.run (repeat (Manager.Resize carouselId w) (S k)) carousels !! carouselId
  = Some (handleResize w data).
Proof.
  revert carousels data. induction k as [|k IH]; intros carousels data Hlook.
  - cbn [repeat Manager.run Manager.call]. unfold Manager.handleResize.
    rewrite with_data_lookup, decide_True by reflexivity. now rewrite Hlook.
  - change (Manager.run (repeat (Manager.Resize carouselId w) (S k))
              (Manager.handleResize w carouselId carousels) !! carouselId
            = Some (handleResize w data)).
    destruct (handleResize_tracks_width w data) as (_ & Hidem & _).
    rewrite <- Hidem. apply IH. unfold Manager.handleResize.
    rewrite with_data_lookup, decide_True by reflexivity. now rewrite Hlook.
Qed.

(** The resize listeners pile up in the same way, but without effect on
    what a resize does: after [k] initialisations, a resize event leaves
    the carousel as a single [handleResize] would. *)
Theorem resize_after_initializations doc w carouselId carousel prev next (k : nat)
    (newWidth : Z) :
  Listeners.elementById doc carouselId = Some carousel ->
  Listeners.buttonById doc (Listeners.prevId carouselId) = Some prev ->
  Listeners.buttonById doc (Listeners.nextId carouselId) = Some next ->
  let dom := Nat.iter (S k) (Listeners.initializeCarousel doc w carouselId) Listeners.fresh in
  Listeners.resizeListeners dom = repeat carouselId (S k) /\
  Listeners.carousels (Listeners.resize newWidth dom) !! carouselId
  = Some (handleResize newWidth (initialData carousel prev next w)).
Proof.
  intros He Hp Hn dom. subst dom.
  rewrite (initialize_repeatedly doc w carouselId carousel prev next k He Hp Hn).
  cbn [Listeners.resizeListeners Listeners.carousels Listeners.resize].
  split; [reflexivity|].
  replace (map _ (repeat carouselId (S k)))
    with (repeat (Manager.Resize carouselId newWidth) (S k))
    by (clear; induction (S k) as [|n IH]; cbn; [reflexivity | now rewrite IH]).
  apply run_resize_lookup, lookup_singleton_eq.
Qed.

Lemma resize_after_initializations_witness :
  Listeners.carousels
    (Listeners.resize 500
       (Nat.iter 3
          (Listeners.initializeCarousel
             (Listeners.mkDocument (fun _ => Some (mkElement 7 0%float))
                (fun _ => Some (mkButton false)))
             1200 "careerCarousel")
          Listeners.fresh))
  !! "careerCarousel"
  = Some (handleResize 500 (initialData (mkElement 7 0%float) (mkButton false) (mkButton false) 1200)).
Proof.
  apply (resize_after_initializations
           (Listeners.mkDocument (fun _ => Some (mkElement 7 0%float))
              (fun _ => Some (mkButton false)))
           1200 "careerCarousel" (mkElement 7 0%float) (mkButton false) (mkButton false) 2 500);
    reflexivity.
Defined.

(** A call leaves the index, the items per view and the element of
    every other carousel as they are, and the whole data of every
    carousel of another type, buttons included (two ids of the same
    type share their buttons); a navigation or resize call on an id
    that the manager does not hold changes nothing at all. *)
Theorem calls_are_local (c : Manager.Call) (carousels : gmap string CarouselData) :
  (forall other, Listeners.target c <> other ->
     currentIndex <$> (Manager.call c carousels !! other) = currentIndex <$> (carousels !! other) /\
     itemsPerView <$> (Manager.call c carousels !! other) = itemsPerView <$> (carousels !! other) /\
     element <$> (Manager.call c carousels !! other) = element <$> (carousels !! other)) /\
  (forall other, Listeners.typeOf (Listeners.target c) <> Listeners.typeOf other ->
     Manager.call c carousels !! other = carousels !! other) /\
  (carousels !! Listeners.target c = None ->
   (forall carouselId carousel prev next w,
      c <> Manager.Initialize carouselId carousel prev next w) ->
   Manager.call c carousels = carousels).
Proof.
  assert (Hother : forall other, Listeners.target c <> other ->
            Manager.call c carousels !! other = carousels !! other).
  { intros other Hne.
    destruct c as [cid [el|] [p|] [n|] w | cid | cid | cid w]; cbn in *;
      try reflexivity;
      try (unfold Manager.movePrev, Manager.moveNext, Manager.handleResize;
           rewrite with_data_lookup; now rewrite decide_False by exact Hne).
    now rewrite lookup_insert_ne. }
  split; [|split].
  - intros other Hne. now rewrite (Hother other Hne).
  - intros other Hne. apply Hother. intros E. apply Hne. now rewrite E.
  - intros Hnone Hnav.
    destruct c as [cid el p n w | cid | cid | cid w]; cbn in *.
    + now destruct (Hnav cid el p n w).
    + now apply with_data_unknown.
    + now apply with_data_unknown.
    + now apply with_data_unknown.
Qed.

Lemma calls_are_local_witness :
  Manager.call (Manager.Next "careerCarousel")
    {[ "academicCarousel" := view 7 3 0 ]} !! "academicCarousel"
  = Some (view 7 3 0) /\
  Manager.call (Manager.Next "careerCarousel")
    {[ "academicCarousel" := view 7 3 0 ]} = {[ "academicCarousel" := view 7 3 0 ]}.
Proof.
  destruct (calls_are_local (Manager.Next "careerCarousel")
              {[ "academicCarousel" := view 7 3 0 ]}) as (_ & Hwhole & Hunknown).
  split.
  - rewrite (Hwhole "academicCarousel"); [reflexivity|]. vm_compute. discriminate.
  - apply Hunknown; [reflexivity | discriminate].
Defined.

(** Whatever calls the page makes on a new manager, each carousel it
    then holds has its index in the range of its view window and shows
    1 to 3 items; when no two initialised carousels share their buttons,
    its buttons are in the state of that index. *)
Theorem manager_keeps_carousels (cs : list Manager.Call) carouselId data :
  Manager.run cs ∅ !! carouselId = Some data ->
  (0 <= currentIndex data <= Z.max 0 (itemCount data - itemsPerView data))%Z /\
  (1 <= itemsPerView data <= 3)%Z /\
  (Sharing.distinct_buttons cs ->
   prevEnabled data = (currentIndex data >? 0)%Z /\
   nextEnabled data = (currentIndex data <? itemCount data - itemsPerView data)%Z).
Proof.
  intros Hlook.
  destruct (run_well_kept cs ∅ (map_Forall_empty _) _ _ Hlook) as (Hr & Hv & Hi).
  split; [exact Hi|]. split; [exact Hv|]. intros _.
  unfold rendered in Hr. unfold prevEnabled, nextEnabled. rewrite <- Hr. cbn.
  unfold inRange in Hi. unfold maxIndex.
  rewrite Z.gtb_ltb, Z.geb_leb.
  destruct (Z.leb_spec (currentIndex data) 0), (Z.ltb_spec 0 (currentIndex data)),
    (Z.leb_spec (Z.max 0 (itemCount data - itemsPerView data)) (currentIndex data)),
    (Z.ltb_spec (currentIndex data) (itemCount data - itemsPerView data));
    split; reflexivity || lia.
Qed.

Lemma manager_keeps_carousels_witness :
  (0 <= currentIndex (view 7 3 2)
     <= Z.max 0 (itemCount (view 7 3 2) - itemsPerView (view 7 3 2)))%Z /\
  prevEnabled (view 7 3 2) = true.
Proof.
  destruct (manager_keeps_carousels
    [Manager.Initialize "careerCarousel" (Some (mkElement 7 0%float))
       (Some (mkButton false)) (Some (mkButton false)) 1200;
     Manager.Next "careerCarousel"; Manager.Next "careerCarousel"]
    "careerCarousel" (view 7 3 2)) as (Hrange & _ & Hbuttons).
  - reflexivity.
  - split; [exact Hrange|]. apply Hbuttons.
    intros a b [<-|[]] [<-|[]] _. reflexivity.
Defined.
End ListenerFacts.

(** * Keyboard navigation of the language selector *)

Section AccessibilityFacts.
Import Accessibility.
Local Open Scope string_scope.

Lemma arrow_right_step i n :
  (0 <= i < n)%Z ->
  handleLanguageSelectorKeys "ArrowRight" i n = Some ((i + 1) mod n)%Z /\
  handleLanguageSelectorKeys "ArrowDown" i n = Some ((i + 1) mod n)%Z.
Proof.
  intros H. unfold handleLanguageSelectorKeys. cbn.
  destruct (Z.ltb_spec i (n - 1)).
  - rewrite Z.mod_small by lia. auto.
  - replace (i + 1)%Z with n by lia. rewrite Z.mod_same by lia. auto.
Qed.

Lemma arrow_left_step i n :
  (0 <= i < n)%Z ->
  handleLanguageSelectorKeys "ArrowLeft" i n = Some ((i - 1) mod n)%Z /\
  handleLanguageSelectorKeys "ArrowUp" i n = Some ((i - 1) mod n)%Z.
Proof.
  intros H. unfold handleLanguageSelectorKeys. cbn.
  destruct (Z.gtb_spec i 0).
  - rewrite Z.mod_small by lia. auto.
  - replace (i - 1)%Z with (n - 1 + (-1) * n)%Z by lia.
    rewrite Z.mod_add by lia. rewrite Z.mod_small by lia. auto.
Qed.

(** The focus always lands on a button that exists: for a target at
    index [i] of [n] buttons, and even for a target that [indexOf] does
    not find ([-1]), an arrow key gives an index from 0 to [n - 1]. *)
Theorem arrow_keys_stay_in_range (key : string) (i n nextIndex : Z) :
  (-1 <= i < n)%Z -> (1 <= n)%Z ->
  handleLanguageSelectorKeys key i n = Some nextIndex ->
  (0 <= nextIndex < n)%Z.
Proof.
  intros Hi Hn. unfold handleLanguageSelectorKeys.
  destruct (_ || _).
  - intros [= <-]. destruct (Z.gtb_spec i 0); lia.
  - destruct (_ || _); [|discriminate].
    intros [= <-]. destruct (Z.ltb_spec i (n - 1)); lia.
Qed.

Lemma arrow_keys_stay_in_range_witness :
  handleLanguageSelectorKeys "ArrowLeft" 0 3 = Some 2%Z /\ (0 <= 2 < 3)%Z.
Proof.
  split; [reflexivity|].
  apply (arrow_keys_stay_in_range "ArrowLeft" 0 3 2); [lia | lia | reflexivity].
Defined.

(** The selector is a ring: [k] presses of a forward arrow move the
    focus from button [i] to button [(i + k) mod n], [k] presses of a
    backward arrow to [(i - k) mod n]; so a forward and a backward press
    cancel, and [n] presses of one arrow come back to the start. *)
Theorem arrow_keys_cycle (i n : Z) (k : nat) :
  (0 <= i < n)%Z ->
  press (repeat "ArrowRight" k) i n = ((i + Z.of_nat k) mod n)%Z /\
  press (repeat "ArrowDown" k) i n = ((i + Z.of_nat k) mod n)%Z /\
  press (repeat "ArrowLeft" k) i n = ((i - Z.of_nat k) mod n)%Z /\
  press (repeat "ArrowUp" k) i n = ((i - Z.of_nat k) mod n)%Z /\
  press ["ArrowRight"; "ArrowLeft"] i n = i /\
  press ["ArrowLeft"; "ArrowRight"] i n = i /\
  press (repeat "ArrowRight" (Z.to_nat n)) i n = i /\
  press (repeat "ArrowLeft" (Z.to_nat n)) i n = i.
Proof.
  intros Hi.
  assert (Hfwd : forall key, handleLanguageSelectorKeys key = handleLanguageSelectorKeys "ArrowRight" ->
            forall k i, (0 <= i < n)%Z -> press (repeat key k) i n = ((i + Z.of_nat k) mod n)%Z).
  { intros key Hkey. induction k0 as [|k0 IH]; intros j Hj.
    - cbn. rewrite Z.add_0_r, Z.mod_small by lia. reflexivity.
    - cbn [repeat press]. rewrite Hkey. destruct (arrow_right_step j n Hj) as [-> _].
      rewrite IH by (apply Z.mod_pos_bound; lia).
      rewrite Zplus_mod_idemp_l. f_equal. lia. }
  assert (Hbwd : forall key, handleLanguageSelectorKeys key = handleLanguageSelectorKeys "ArrowLeft" ->
            forall k i, (0 <= i < n)%Z -> press (repeat key k) i n = ((i - Z.of_nat k) mod n)%Z).
  { intros key Hkey. induction k0 as [|k0 IH]; intros j Hj.
    - cbn. rewrite Z.sub_0_r, Z.mod_small by lia. reflexivity.
    - cbn [repeat press]. rewrite Hkey. destruct (arrow_left_step j n Hj) as [-> _].
      rewrite IH by (apply Z.mod_pos_bound; lia).
      rewrite Zminus_mod_idemp_l. f_equal. lia. }
  repeat split.
  - now apply Hfwd.
  - now apply Hfwd.
  - now apply Hbwd.
  - now apply Hbwd.
  - cbn [press]. destruct (arrow_right_step i n Hi) as [-> _].
    destruct (arrow_left_step ((i + 1) mod n) n) as [-> _];
      [apply Z.mod_pos_bound; lia|].
    rewrite Zminus_mod_idemp_l. replace (i + 1 - 1)%Z with i by lia.
    apply Z.mod_small. lia.
  - cbn [press]. destruct (arrow_left_step i n Hi) as [-> _].
    destruct (arrow_right_step ((i - 1) mod n) n) as [-> _];
      [apply Z.mod_pos_bound; lia|].
    rewrite Zplus_mod_idemp_l. replace (i - 1 + 1)%Z with i by lia.
    apply Z.mod_small. lia.
  - rewrite Hfwd by auto. rewrite Z2Nat.id by lia.
    replace (i + n)%Z with (i + 1 * n)%Z by lia. rewrite Z.mod_add by lia.
    apply Z.mod_small. lia.
  - rewrite Hbwd by auto. rewrite Z2Nat.id by lia.
    replace (i - n)%Z with (i + (-1) * n)%Z by lia. rewrite Z.mod_add by lia.
    apply Z.mod_small. lia.
Qed.

Lemma arrow_keys_cycle_witness :
  press (repeat "ArrowRight" 3) 1 3 = 1%Z /\ press ["ArrowLeft"; "ArrowRight"] 0 3 = 0%Z.
Proof.
  destruct (arrow_keys_cycle 1 3 3) as (_ & _ & _ & _ & _ & _ & H & _); [lia|].
  destruct (arrow_keys_cycle 0 3 0) as (_ & _ & _ & _ & _ & H' & _); [lia|].
  split; [exact H | exact H'].
Defined.

End AccessibilityFacts.

(** * Sections, paths and the language preference *)

Section WebsiteFacts.
Import CVWebsite Website.
Local Open Scope string_scope.

Lemma find_last_match {A} (f : A -> bool) (l1 : list A) x (l2 : list A) :
  Forall (fun y => f y = false) l1 -> f x = true ->
  find f (l1 ++ x :: l2) = Some x.
Proof.
  induction 1 as [|y l1 Hy _ IH]; intros Hx; cbn.
  - now rewrite Hx.
  - rewrite Hy. now apply IH.
Qed.

Lemma find_no_match {A} (f : A -> bool) (l : list A) :
  Forall (fun y => f y = false) l -> find f l = None.
Proof. induction 1 as [|y l Hy _ IH]; cbn; [reflexivity|]. now rewrite Hy. Qed.

Lemma not_reached scrollY s :
  (scrollY < inject_Z (offsetTop s - 130))%Q -> reached scrollY s = false.
Proof.
  intros Hlt. unfold reached. destruct (Qle_bool _ _) eqn:E; [|reflexivity].
  apply Qle_bool_iff in E.
  replace (offsetTop s - 80 - 50)%Z with (offsetTop s - 130)%Z in E by lia.
  exfalso. exact (Qlt_not_le _ _ Hlt E).
Qed.

(** [getCurrentSection] returns the id of the last section, in document
    order, whose top less 130 pixels has been scrolled past. *)
Theorem getCurrentSection_last_reached (scrollY : Q)
    (before : list SectionElement) (section : SectionElement)
    (after : list SectionElement) :
  (inject_Z (offsetTop section - 130) <= scrollY)%Q ->
  Forall (fun s => (scrollY < inject_Z (offsetTop s - 130))%Q) after ->
  getCurrentSection scrollY (before ++ section :: after) = section_id section.
Proof.
  intros Hs Hafter. unfold getCurrentSection.
  rewrite rev_app_distr. cbn [rev]. rewrite <- app_assoc. cbn [app].
  rewrite (find_last_match (reached scrollY) (rev after) section (rev before)).
  - reflexivity.
  - apply Forall_rev. eapply Forall_impl; [exact Hafter|].
    intros s. apply not_reached.
  - unfold reached. apply Qle_bool_iff.
    now replace (offsetTop section - 80 - 50)%Z with (offsetTop section - 130)%Z by lia.
Qed.

Lemma getCurrentSection_last_reached_witness :
  getCurrentSection 500
    ([mkSection "hero" 0; mkSection "career" 600] ++
     mkSection "timeline" 620 :: [mkSection "skills" 1200])
  = "timeline".
Proof.
  apply (getCurrentSection_last_reached 500
           [mkSection "hero" 0; mkSection "career" 600]
           (mkSection "timeline" 620) [mkSection "skills" 1200]).
  - vm_compute. discriminate.
  - repeat constructor.
Defined.

(** When no section has been reached, the first section counts as the
    current one; without any section the result is the empty string. *)
Theorem getCurrentSection_none_reached (scrollY : Q) (sections : list SectionElement) :
  Forall (fun s => (scrollY < inject_Z (offsetTop s - 130))%Q) sections ->
  getCurrentSection scrollY sections
  = match sections with
    | first :: _ => section_id first
    | [] => ""
    end.
Proof.
  intros Hnone. unfold getCurrentSection. rewrite find_no_match.
  - destruct sections as [|first rest]; [reflexivity|].
    destruct (String.eqb_spec (section_id first) ""); congruence.
  - apply Forall_rev. eapply Forall_impl; [exact Hnone|].
    intros s. apply not_reached.
Qed.

Lemma getCurrentSection_none_reached_witness :
  getCurrentSection (-200) [mkSection "hero" 0; mkSection "career" 600] = "hero".
Proof.
  apply (getCurrentSection_none_reached (-200) [mkSection "hero" 0; mkSection "career" 600]).
  repeat constructor.
Defined.

End WebsiteFacts.

(** * Language paths and the stored preference *)

Section LanguageSwitchFacts.
Import CVWebsite Website.
Local Open Scope string_scope.

(** Only the first path segment is looked at: on the language pages
    [/en/], [/de/], [/fr/] the path decides the language whatever is
    stored, while on the pages [/cv/en/], [/cv/de/], [/cv/fr/], which
    [isMainPage] accepts as language pages too, the code in the path
    plays no part and the result is the one for [/cv/]. *)
Theorem language_of_path (l : string) (stored : option string) (navigatorLanguage : string) :
  In l supported ->
  (isLangPath ("/" +:+ l +:+ "/") = true /\
   getDefaultLanguage ("/" +:+ l +:+ "/") stored navigatorLanguage = Some l /\
   getDefaultLanguage ("/" +:+ l) stored navigatorLanguage = Some l) /\
  (forall baseUrl, isMainPage baseUrl ("/cv/" +:+ l +:+ "/") = true) /\
  getDefaultLanguage ("/cv/" +:+ l +:+ "/") stored navigatorLanguage
  = getDefaultLanguage "/cv/" stored navigatorLanguage.
Proof.
  intros Hl. cbn in Hl.
  destruct Hl as [<-|[<-|[<-|[]]]]; repeat split;
    try (intros baseUrl; unfold isMainPage; apply orb_true_iff; right; reflexivity).
Qed.

Lemma language_of_path_witness :
  getDefaultLanguage "/de/" (Some "fr") "en-US" = Some "de" /\
  getDefaultLanguage "/cv/de/" (Some "fr") "en-US" = Some "fr".
Proof.
  destruct (language_of_path "de" (Some "fr") "en-US") as ((_ & H1 & _) & _ & H2).
  - cbn. auto.
  - split; [exact H1 | exact H2].
Defined.

(** A stored supported code decides when the path has none. *)
Lemma getDefaultLanguage_stored path l navigatorLanguage :
  In l supported -> ~ is_supported (pathLang path) ->
  getDefaultLanguage path (Some l) navigatorLanguage = Some l.
Proof.
  intros Hl Hpath. unfold getDefaultLanguage.
  rewrite (proj2 (includes_unsupported _) Hpath).
  assert (Hs : is_supported (Some l)) by (exists l; auto).
  now rewrite (supported_truthy _ Hs), (proj2 (includes_supported _) Hs).
Qed.

Lemma loadAndRenderContent_keeps env site :
  currentLanguage (loadAndRenderContent env site) = currentLanguage site /\
  localStorage (loadAndRenderContent env site) = localStorage site /\
  documentLang (loadAndRenderContent env site) = documentLang site /\
  langButtons (loadAndRenderContent env site) = langButtons site /\
  (isLoading site = false -> isLoading (loadAndRenderContent env site) = false).
Proof.
  unfold loadAndRenderContent.
  destruct (isLoading site) eqn:E; cbn; repeat split; auto; discriminate.
Qed.

Lemma reloadDetailPage_keeps env site :
  currentLanguage (reloadDetailPage env site) = currentLanguage site /\
  localStorage (reloadDetailPage env site) = localStorage site /\
  documentLang (reloadDetailPage env site) = documentLang site /\
  langButtons (reloadDetailPage env site) = langButtons site /\
  isLoading (reloadDetailPage env site) = isLoading site /\
  loader (reloadDetailPage env site) = loader site.
Proof.
  unfold reloadDetailPage.
  destruct (JsString.includes "/career/" (pathname env)),
    (JsString.includes "/education/" (pathname env)),
    (hasLoadCareerDetail env), (hasLoadEducationDetail env); cbn; auto 10.
Qed.

(** A switch that is not dropped makes the new language current, stores
    it under ['cv-language'], sets it as the document's language, marks
    exactly the buttons of that language as active and ends with
    [isLoading] false, on a main page as on a detail page and whether
    or not the language is a supported one.  When it is supported, the
    next page whose first path segment is no language code starts in
    that language. *)
Theorem switchLanguage_stores_preference (env : Env) (newLang : string) (site : Site) :
  newLang <> currentLanguage site -> isLoading site = false ->
  let site' := switchLanguage env newLang site in
  currentLanguage site' = newLang /\
  localStorage site' !! "cv-language" = Some newLang /\
  documentLang site' = newLang /\
  isLoading site' = false /\
  langButtons site'
  = map (fun btn => (fst btn, bool_decide (fst btn = Some newLang))) (langButtons site) /\
  (In newLang supported ->
   forall path navigatorLanguage,
     ~ is_supported (pathLang path) ->
     defaultLanguage path navigatorLanguage site' = Some newLang).
Proof.
  intros Hne Hload. cbn zeta. unfold switchLanguage.
  rewrite (proj2 (String.eqb_neq _ _) Hne), Hload. cbn [orb].
  set (site1 := mkSite newLang _ _ _ _ _ _).
  assert (Hkeep :
    currentLanguage site1 = newLang /\
    localStorage site1 !! "cv-language" = Some newLang /\
    documentLang site1 = newLang /\ isLoading site1 = false /\
    langButtons site1 = updateLanguageSelector newLang (langButtons site)).
  { subst site1. cbn. rewrite lookup_insert_eq. auto. }
  destruct Hkeep as (Hc & Hs & Hd & Hl & Hb).
  assert (Hall : forall site2,
    currentLanguage site2 = currentLanguage site1 ->
    localStorage site2 = localStorage site1 ->
    documentLang site2 = documentLang site1 ->
    langButtons site2 = langButtons site1 ->
    isLoading site2 = false ->
    currentLanguage site2 = newLang /\
    localStorage site2 !! "cv-language" = Some newLang /\
    documentLang site2 = newLang /\
    isLoading site2 = false /\
    langButtons site2
    = map (fun btn => (fst btn, bool_decide (fst btn = Some newLang))) (langButtons site) /\
    (In newLang supported ->
     forall path navigatorLanguage,
       ~ is_supported (pathLang path) ->
       defaultLanguage path navigatorLanguage site2 = Some newLang)).
  { intros site2 E1 E2 E3 E4 E5. rewrite E1, E2, E3, E4, E5.
    repeat split; try assumption.
    intros Hsup path nav Hpath. unfold defaultLanguage. rewrite E2, Hs.
    exact (getDefaultLanguage_stored path newLang nav Hsup Hpath). }
  destruct (isMainPage _ _).
  - destruct (loadAndRenderContent_keeps env site1) as (E1 & E2 & E3 & E4 & E5).
    apply Hall; auto.
  - destruct (reloadDetailPage_keeps env site1) as (E1 & E2 & E3 & E4 & E5 & _).
    apply Hall; auto; congruence.
Qed.

Lemma switchLanguage_stores_preference_witness :
  defaultLanguage "/career/acme/" "en-US"
    (switchLanguage (mkEnv english_only_page "/career/acme/" true false) "de"
       (mkSite "en" false fresh ∅ "en" [(Some "en", true); (Some "de", false)] []))
  = Some "de".
Proof.
  apply (switchLanguage_stores_preference
           (mkEnv english_only_page "/career/acme/" true false) "de"
           (mkSite "en" false fresh ∅ "en" [(Some "en", true); (Some "de", false)] [])).
  - discriminate.
  - reflexivity.
  - cbn. auto.
  - apply includes_unsupported. reflexivity.
Defined.

(** On a main page, a switch to a language whose document is in the
    cache fetches nothing and leaves the cache as it is. *)
Theorem switchLanguage_cached (env : Env) (newLang : string) (site : Site) (data : Value) :
  newLang <> currentLanguage site -> isLoading site = false ->
  isMainPage (baseUrl (page env)) (pathname env) = true ->
  contentCache (loader site) !! cacheKey_of newLang = Some data ->
  truthy data = true ->
  loader (switchLanguage env newLang site) = loader site.
Proof.
  intros Hne Hload Hmain Hentry Htruthy. unfold switchLanguage.
  rewrite (proj2 (String.eqb_neq _ _) Hne), Hload, Hmain. cbn [orb].
  unfold loadAndRenderContent. cbn [isLoading currentLanguage loader page]. rewrite loadContentData_step, Hentry. cbn [if_truthy].
  rewrite Htruthy. reflexivity.
Qed.

Lemma switchLanguage_cached_witness :
  loader (switchLanguage (mkEnv offline_page "/" false false) "en"
            (mkSite "de" false (store "content-en" example_document fresh) ∅ "de" [] []))
  = store "content-en" example_document fresh.
Proof.
  apply (switchLanguage_cached (mkEnv offline_page "/" false false) "en"
           (mkSite "de" false (store "content-en" example_document fresh) ∅ "de" [] [])
           example_document).
  - discriminate.
  - reflexivity.
  - reflexivity.
  - reflexivity.
  - reflexivity.
Defined.

End LanguageSwitchFacts.

(** * Detail pages, prefetching and the meta description *)

Section DetailFacts.
Import CVWebsite Website.
Local Open Scope string_scope.

(** [split] of a string with a separator inside is the two splits put
    together. *)
Lemma split_app sep a b :
  split sep (a +:+ String sep b) = (split sep a ++ split sep b)%list.
Proof.
  induction a as [|c a IH]; simpl.
  - now rewrite Ascii.eqb_refl.
  - destruct (Ascii.eqb c sep); rewrite IH; [reflexivity|].
    pose proof (split_nonempty sep a) as Hne.
    destruct (split sep a) as [|w ws]; [contradiction|reflexivity].
Qed.

(** No segment contains the separator. *)
Lemma split_segments_free sep s : Forall (free_of sep) (split sep s).
Proof.
  induction s as [|c s IH]; simpl.
  - constructor; [|constructor]. intros [].
  - destruct (Ascii.eqb_spec c sep) as [->|Hne].
    + constructor; [intros []|exact IH].
    + destruct (split sep s) as [|w ws]; [constructor; [|constructor]|].
      * unfold free_of. simpl. intros [E|[]]. now apply Hne.
      * inversion IH as [|? ? Hw Hws]; subst. constructor; [|exact Hws].
        unfold free_of in *. simpl. intros [E|Hin]; [now apply Hne | now apply Hw].
Qed.

Lemma strip_prefix_app pat rest : JsString.strip_prefix pat (pat +:+ rest) = Some rest.
Proof. induction pat as [|c pat IH]; simpl; [reflexivity|]. now rewrite Ascii.eqb_refl. Qed.

Lemma strip_prefix_Some pat s rest :
  JsString.strip_prefix pat s = Some rest -> s = pat +:+ rest.
Proof.
  revert s. induction pat as [|c pat IH]; intros s; simpl.
  - now intros [= ->].
  - destruct s as [|d s]; [discriminate|].
    destruct (Ascii.eqb_spec c d) as [->|]; [|discriminate].
    intros H. now rewrite (IH _ H).
Qed.

Lemma includes_prefix pat s rest :
  JsString.strip_prefix pat s = Some rest -> JsString.includes pat s = true.
Proof. intros H. destruct s; cbn [JsString.includes]; now rewrite H. Qed.

Lemma includes_app pat a b : JsString.includes pat (a +:+ pat +:+ b) = true.
Proof.
  induction a as [|c a IH].
  - change ("" +:+ pat +:+ b) with (pat +:+ b).
    apply (includes_prefix pat _ b), strip_prefix_app.
  - change (String c a +:+ pat +:+ b) with (String c (a +:+ pat +:+ b)).
    cbn [JsString.includes]. rewrite IH.
    now destruct (JsString.strip_prefix pat _).
Qed.

Lemma includes_inv pat s :
  JsString.includes pat s = true -> exists a b, s = a +:+ pat +:+ b.
Proof.
  induction s as [|c s IH]; cbn [JsString.includes].
  - destruct (JsString.strip_prefix pat "") as [rest|] eqn:E; [|discriminate].
    intros _. exists "", rest. exact (strip_prefix_Some _ _ _ E).
  - destruct (JsString.strip_prefix pat (String c s)) as [rest|] eqn:E.
    + intros _. exists "", rest. exact (strip_prefix_Some _ _ _ E).
    + intros H. destruct (IH H) as (a & b & ->). now exists (String c a), b.
Qed.

Lemma append_assoc (a b c : string) : (a +:+ b) +:+ c = a +:+ b +:+ c.
Proof.
  induction a as [|x a IH]; [reflexivity|].
  change (String x ((a +:+ b) +:+ c) = String x (a +:+ b +:+ c)). now rewrite IH.
Qed.

Lemma lastSegment_app a seg :
  seg <> "" -> free_of "/" seg ->
  JsString.lastSegment (a +:+ "/" +:+ seg) = Some seg /\
  JsString.lastSegment (a +:+ "/" +:+ seg +:+ "/") = Some seg.
Proof.
  intros Hne Hfree. unfold JsString.lastSegment. split.
  - change (a +:+ "/" +:+ seg) with (a +:+ String "/" seg).
    rewrite split_app, (split_whole _ _ Hfree), filter_app.
    rewrite filter_cons_True by exact Hne. cbn. apply last_snoc.
  - change (a +:+ "/" +:+ seg +:+ "/") with (a +:+ String "/" (seg +:+ String "/" "")).
    rewrite split_app, (split_cut _ _ _ Hfree), filter_app.
    rewrite filter_cons_True by exact Hne. cbn.
    case_decide; [congruence|]. apply last_snoc.
Qed.

Lemma lastSegment_Some path seg :
  JsString.lastSegment path = Some seg -> seg <> "" /\ free_of "/" seg.
Proof.
  unfold JsString.lastSegment. intros H.
  apply last_Some_elem_of in H. apply list_elem_of_filter in H as [Hne Hin].
  split; [exact Hne|].
  pose proof (split_segments_free "/" path) as Hall.
  rewrite Forall_forall in Hall. now apply Hall.
Qed.

Lemma lastSegment_includes pat path :
  pat <> "" -> free_of "/" pat ->
  JsString.includes ("/" +:+ pat +:+ "/") path = true ->
  exists seg, JsString.lastSegment path = Some seg.
Proof.
  intros Hne Hfree Hinc. apply includes_inv in Hinc as (a & b & ->).
  unfold JsString.lastSegment.
  replace (a +:+ ("/" +:+ pat +:+ "/") +:+ b) with (a +:+ String "/" (pat +:+ String "/" b))
    by (change (("/" +:+ pat +:+ "/") +:+ b) with (String "/" ((pat +:+ "/") +:+ b));
        now rewrite append_assoc).
  rewrite split_app, (split_cut _ _ _ Hfree), filter_app, filter_cons_True by exact Hne.
  destruct (last _) as [seg|] eqn:E; [eauto|].
  apply last_None in E. apply app_eq_nil in E as [_ E]. discriminate.
Qed.

(** On a career page [<base>/career/<id>/], with or without the final
    slash, a language switch hands [<id>] to [window.loadCareerDetail],
    whatever the base path is. *)
Theorem reloadDetailPage_career (env : Env) (site : Site) (base id : string) :
  id <> "" -> free_of "/" id ->
  pathname env = base +:+ "/career/" +:+ id +:+ "/" \/
  pathname env = base +:+ "/career/" +:+ id ->
  hasLoadCareerDetail env = true ->
  detailCalls (reloadDetailPage env site)
  = (detailCalls site ++ [(CareerDetail, Some id)])%list.
Proof.
  intros Hne Hfree Hpath Hhas. unfold reloadDetailPage.
  assert (Hinc : JsString.includes "/career/" (pathname env) = true).
  { destruct Hpath as [-> | ->]; apply includes_app. }
  assert (Hlast : JsString.lastSegment (pathname env) = Some id).
  { destruct Hpath as [-> | ->].
    - replace (base +:+ "/career/" +:+ id +:+ "/")
        with ((base +:+ "/career") +:+ "/" +:+ id +:+ "/")
        by (now rewrite append_assoc).
      now apply lastSegment_app.
    - replace (base +:+ "/career/" +:+ id) with ((base +:+ "/career") +:+ "/" +:+ id)
        by (now rewrite append_assoc).
      now apply lastSegment_app. }
  rewrite Hinc, Hhas, Hlast. reflexivity.
Qed.

Lemma reloadDetailPage_career_witness :
  detailCalls
    (reloadDetailPage (mkEnv english_only_page "/cv/career/acme-cto/" true false)
       (mkSite "de" false fresh ∅ "de" [] []))
  = [(CareerDetail, Some "acme-cto")].
Proof.
  apply (reloadDetailPage_career
           (mkEnv english_only_page "/cv/career/acme-cto/" true false)
           (mkSite "de" false fresh ∅ "de" [] []) "/cv" "acme-cto").
  - discriminate.
  - unfold free_of. cbn. intros H.
    repeat (destruct H as [H|H]; [discriminate|]). exact H.
  - left. reflexivity.
  - reflexivity.
Defined.

(** Whatever the path, [reloadDetailPage] makes at most one call, to
    the career loader when the path contains [/career/] and otherwise
    to the education loader when it contains [/education/]; the id it
    hands over is a segment of the path, never empty, never undefined
    and free of slashes; everything else in the site stays as it is. *)
Theorem reloadDetailPage_id (env : Env) (site : Site) :
  reloadDetailPage env site = site \/
  exists detail id,
    detailCalls (reloadDetailPage env site) = (detailCalls site ++ [(detail, Some id)])%list /\
    id <> "" /\ free_of "/" id /\
    (detail = CareerDetail <-> JsString.includes "/career/" (pathname env) = true) /\
    loader (reloadDetailPage env site) = loader site /\
    currentLanguage (reloadDetailPage env site) = currentLanguage site.
Proof.
  unfold reloadDetailPage.
  assert (Hseg : forall pat, pat <> "" -> free_of "/" pat ->
            JsString.includes ("/" +:+ pat +:+ "/") (pathname env) = true ->
            exists id, JsString.lastSegment (pathname env) = Some id /\
                       id <> "" /\ free_of "/" id).
  { intros pat Hne Hfree Hinc.
    destruct (lastSegment_includes pat _ Hne Hfree Hinc) as [id Hid].
    exists id. split; [exact Hid|]. now apply lastSegment_Some with (pathname env). }
  destruct (JsString.includes "/career/" (pathname env)) eqn:Hc.
  - destruct (hasLoadCareerDetail env); [|now left]. right.
    destruct (Hseg "career") as (id & Hid & Hne & Hfree); [discriminate| |exact Hc|].
    { unfold free_of. cbn. intros H.
      repeat (destruct H as [H|H]; [discriminate|]). exact H. }
    exists CareerDetail, id. rewrite Hid. cbn. tauto.
  - destruct (JsString.includes "/education/" (pathname env)) eqn:He; [|now left].
    destruct (hasLoadEducationDetail env); [|now left]. right.
    destruct (Hseg "education") as (id & Hid & Hne & Hfree); [discriminate| |exact He|].
    { unfold free_of. cbn. intros H.
      repeat (destruct H as [H|H]; [discriminate|]). exact H. }
    exists EducationDetail, id. rewrite Hid. cbn.
    repeat split; auto; discriminate.
Qed.

End DetailFacts.

(** * Prefetching and the meta description *)

Section PrefetchFacts.
Import CVWebsite Website.
Local Open Scope string_scope.

(** On a miss without an embedded entry, the first thing a load does is
    to fetch the language's own file. *)
Lemma load_fetches_own_file page language st :
  cache_miss language st -> embedded page language = None ->
  exists o st' rest,
    loadContentData page language st = Some (o, st') /\
    fetched st' = (fetched st ++ url_of page language :: rest)%list.
Proof.
  unfold cache_miss. intros Hmiss Hemb.
  rewrite loadContentData_step, Hmiss, Hemb.
  destruct (fetch _ _) as [r|]; [|eexists _, _, []; split; reflexivity].
  destruct (ok r).
  { destruct (json r); eexists _, _, []; split; reflexivity. }
  destruct (bool_decide _); [|eexists _, _, []; split; reflexivity].
  destruct (load_en_fetches page (log_fetch (url_of page language) st))
    as (o & st' & Hen & [Hf|Hf]); rewrite Hen.
  - exists o, st', []. split; [reflexivity|]. rewrite Hf. reflexivity.
  - exists o, st', [url_of page "en"]. split; [reflexivity|]. rewrite Hf. cbn.
    now rewrite <- app_assoc.
Qed.

(** [preloadCriticalResources] prefetches one file for each supported
    language other than the current one (two files when the current
    language is supported), and each of them is the file that
    [loadContentData] fetches first for that language when it has
    neither a cache entry nor an embedded entry; without a site object
    the current language counts as ['en']. *)
Theorem preload_matches_fetch (page : Page) (current : string) :
  current <> "" ->
  (forall u, In u (preloadCriticalResources page (Some current)) <->
     exists l, In l supported /\ l <> current /\ u = url_of page l) /\
  (forall u, In u (preloadCriticalResources page (Some current)) ->
     exists l, l <> current /\
       forall st, cache_miss l st -> embedded page l = None ->
         exists o st' rest,
           loadContentData page l st = Some (o, st') /\
           fetched st' = (fetched st ++ u :: rest)%list) /\
  (In current supported ->
   length (preloadCriticalResources page (Some current)) = 2%nat) /\
  preloadCriticalResources page None = preloadCriticalResources page (Some "en").
Proof.
  intros Hne.
  assert (Hchar : forall u, In u (preloadCriticalResources page (Some current)) <->
            exists l, In l supported /\ l <> current /\ u = url_of page l).
  { intros u. unfold preloadCriticalResources.
    rewrite (proj2 (String.eqb_neq _ _) Hne). rewrite in_map_iff. split.
    - intros (l & <- & Hin). apply list_elem_of_In, list_elem_of_filter in Hin as [Hl Hin].
      exists l. split; [now apply list_elem_of_In|]. auto.
    - intros (l & Hin & Hl & ->). exists l. split; [reflexivity|].
      apply list_elem_of_In, list_elem_of_filter. split; [exact Hl|].
      now apply list_elem_of_In. }
  split; [exact Hchar|]. split; [|split].
  - intros u Hu. apply Hchar in Hu as (l & _ & Hl & ->). exists l. split; [exact Hl|].
    intros st. apply load_fetches_own_file.
  - unfold preloadCriticalResources. rewrite (proj2 (String.eqb_neq _ _) Hne).
    rewrite length_map. cbn.
    intros [<-|[<-|[<-|[]]]]; reflexivity.
  - reflexivity.
Qed.

Lemma preload_matches_fetch_witness :
  In "/assets/data/fr.json" (preloadCriticalResources english_only_page (Some "de")) /\
  length (preloadCriticalResources english_only_page (Some "de")) = 2%nat.
Proof.
  destruct (preload_matches_fetch english_only_page "de") as (Hchar & _ & Hlen & _).
  - discriminate.
  - split.
    + apply Hchar. exists "fr". cbn. split; [auto|]. split; [discriminate|reflexivity].
    + apply Hlen. cbn. auto.
Defined.

Lemma trimStart_Forall (P : N -> Prop) s : Forall P s -> Forall P (trimStart s).
Proof.
  induction 1 as [|c s Hc Hs IH]; cbn; [constructor|].
  destruct (isWhiteSpace c); [exact IH | now constructor].
Qed.

Lemma trimStart_head s c rest : trimStart s = c :: rest -> isWhiteSpace c = false.
Proof.
  induction s as [|d s IH]; cbn; [discriminate|].
  destruct (isWhiteSpace d) eqn:E; [exact IH|]. now intros [= <- _].
Qed.

Lemma trimStart_snoc s c :
  isWhiteSpace c = false -> exists s', trimStart (s ++ [c]) = (s' ++ [c])%list.
Proof.
  intros Hc. induction s as [|d s [s' IH]]; cbn.
  - rewrite Hc. now exists [].
  - destruct (isWhiteSpace d); [now exists s'|]. now exists (d :: s).
Qed.

Lemma trim_head s c rest : trim s = c :: rest -> isWhiteSpace c = false.
Proof.
  unfold trim. destruct (trimStart s) as [|d t] eqn:E; [discriminate|].
  pose proof (trimStart_head _ _ _ E) as Hd.
  cbn [rev]. destruct (trimStart_snoc (rev t) d Hd) as [s' ->].
  rewrite rev_app_distr. cbn. now intros [= <- _].
Qed.

(** The meta description is at most 160 code units long, holds no line
    feed and no bullet, and does not start with white space. *)
Theorem metaDescription_bounds (text : list N) :
  (length (metaDescription text) <= 160)%nat /\
  Forall (fun c => c <> 0xA%N /\ c <> 0x2022%N) (metaDescription text) /\
  (forall c rest, metaDescription text = c :: rest -> isWhiteSpace c = false).
Proof.
  unfold metaDescription. split; [|split].
  - rewrite length_take. lia.
  - apply Forall_take. unfold trim. apply Forall_rev, trimStart_Forall, Forall_rev,
      trimStart_Forall.
    apply Forall_forall. intros c Hc. apply list_elem_of_In, in_map_iff in Hc as (d & <- & _).
    destruct (N.eqb_spec d 0x2022) as [->|H1]; cbn; [split; discriminate|].
    destruct (N.eqb_spec d 0xA) as [->|H2]; cbn; [split; discriminate|].
    split; assumption.
  - intros c rest H.
    destruct (trim _) as [|d t] eqn:E; [discriminate|].
    cbn in H. injection H as <- _. exact (trim_head _ _ _ E).
Qed.

End PrefetchFacts.

(** * More on the content loader *)

Section LoaderMore.
Import CVWebsite.
Local Open Scope string_scope.

Lemma if_truthy_Some x data :
  if_truthy x = Some data -> x = Some data /\ truthy data = true.
Proof.
  unfold if_truthy. destruct x as [v|]; [|discriminate].
  destruct (truthy v) eqn:E; [|discriminate]. now intros [= <-].
Qed.

Lemma embedded_truthy page language data :
  embedded page language = Some data -> truthy data = true.
Proof.
  unfold embedded. destruct (siteData page); [|discriminate].
  intros H. now apply if_truthy_Some in H.
Qed.

Lemma cacheKey_of_en language : cacheKey_of language = cacheKey_of "en" -> language = "en".
Proof. unfold cacheKey_of. intros H. now apply (inj (String.app "content-")) in H. Qed.

(** What a call on ['en'] does to the cache. *)
Lemma load_en_cache page st o st' :
  loadContentData page "en" st = Some (o, st') ->
  contentCache st' = contentCache st \/
  exists data, o = Returned data /\
               contentCache st' = <[cacheKey_of "en" := data]> (contentCache st).
Proof.
  rewrite loadContentData_step.
  destruct (if_truthy _); [intros [= <- <-]; now left|].
  destruct (embedded _ _); [intros [= <- <-]; right; eauto|].
  destruct (fetch _ _) as [r|]; [|intros [= <- <-]; now left].
  destruct (ok r).
  - destruct (json r); intros [= <- <-]; [right; eauto | now left].
  - rewrite bool_decide_eq_false_2 by (intros H; now apply H).
    intros [= <- <-]. now left.
Qed.

(** The outcome of a call and the cache it leaves depend on the state
    through the cache alone. *)
Lemma cache_decides fuel page language st1 st2 o st1' :
  contentCache st1 = contentCache st2 ->
  loadContentData_fuel fuel page language st1 = Some (o, st1') ->
  exists st2', loadContentData_fuel fuel page language st2 = Some (o, st2') /\
               contentCache st2' = contentCache st1'.
Proof.
  revert language st1 st2. induction fuel as [|fuel IH]; intros language st1 st2 Hc;
    [discriminate|].
  rewrite !loadContentData_fuel_step, <- Hc.
  destruct (if_truthy _); [intros [= <- <-]; eauto|].
  destruct (embedded _ _).
  { intros [= <- <-]. eexists. split; [reflexivity|]. cbn. now rewrite Hc. }
  destruct (fetch _ _) as [r|]; [|intros [= <- <-]; eexists; split; [reflexivity|]; cbn; auto].
  destruct (ok r).
  { destruct (json r); intros [= <- <-]; eexists; (split; [reflexivity|]); cbn;
      now rewrite Hc. }
  destruct (bool_decide _).
  - apply IH. cbn. exact Hc.
  - intros [= <- <-]. eexists. split; [reflexivity|]. cbn. auto.
Qed.

(** A call that throws leaves the cache as it was. *)
Theorem thrown_keeps_cache (page : Page) (language : string) (st : State)
    (e : Error) (st' : State) :
  loadContentData page language st = Some (Thrown e, st') ->
  contentCache st' = contentCache st.
Proof.
  rewrite loadContentData_step.
  destruct (if_truthy _); [discriminate|].
  destruct (embedded _ _); [discriminate|].
  destruct (fetch _ _) as [r|]; [|now intros [= <- <-]].
  destruct (ok r).
  { destruct (json r); [discriminate | now intros [= <- <-]]. }
  destruct (bool_decide _); [|now intros [= <- <-]].
  intros Hen. destruct (load_en_cache _ _ _ _ Hen) as [->|(data & [=] & _)].
  reflexivity.
Qed.

Lemma thrown_keeps_cache_witness :
  contentCache (log_fetch "/assets/data/es.json" (store "content-de" example_document fresh))
  = contentCache (store "content-de" example_document fresh).
Proof.
  apply (thrown_keeps_cache offline_page "es" (store "content-de" example_document fresh)
           (FetchFailed "/assets/data/es.json")).
  reflexivity.
Defined.

(** A repeated call that does not go through the fallback. *)
Lemma repeat_own page language st o st' :
  (if_truthy (contentCache st !! cacheKey_of language) = None ->
   embedded page language = None ->
   forall r, fetch page (url_of page language) = Some r -> ok r = false ->
             language = "en") ->
  loadContentData page language st = Some (o, st') ->
  exists st'', loadContentData page language st' = Some (o, st'') /\
               contentCache st'' = contentCache st'.
Proof.
  intros Hown Hload. rewrite loadContentData_step in Hload.
  rewrite (loadContentData_step page language st').
  destruct (if_truthy (contentCache st !! cacheKey_of language)) as [d|] eqn:Hc.
  { injection Hload as <- <-. rewrite Hc. eauto. }
  destruct (embedded page language) as [d|] eqn:He.
  { injection Hload as <- <-. cbn [contentCache store]. rewrite lookup_insert_eq.
    cbn [if_truthy]. rewrite (embedded_truthy _ _ _ He). eauto. }
  destruct (fetch page (url_of page language)) as [r|] eqn:Hf.
  2:{ injection Hload as <- <-. cbn [contentCache log_fetch]. rewrite Hc. eauto. }
  destruct (ok r) eqn:Hok.
  { destruct (json r) as [d|] eqn:Hj; injection Hload as <- <-;
      cbn [contentCache store log_fetch].
    - rewrite lookup_insert_eq. cbn [if_truthy]. destruct (truthy d); [eauto|].
      eexists. split; [reflexivity|]. cbn [contentCache store log_fetch].
      apply insert_insert_eq.
    - rewrite Hc. eauto. }
  pose proof (Hown eq_refl eq_refl r eq_refl Hok) as Hen. subst language.
  rewrite bool_decide_eq_false_2 in Hload |- * by (intros H; now apply H).
  injection Hload as <- <-. cbn [contentCache log_fetch]. rewrite Hc. eauto.
Qed.

(** On a page that stays as it is, a call made again gives what it gave
    the first time, the same document or the same error, and leaves the
    cache as the first call left it. *)
Theorem repeated_call_same_outcome (page : Page) (language : string) (st : State)
    (o : Outcome Value) (st' : State) :
  loadContentData page language st = Some (o, st') ->
  exists st'', loadContentData page language st' = Some (o, st'') /\
               contentCache st'' = contentCache st'.
Proof.
  intros Hload.
  destruct (if_truthy (contentCache st !! cacheKey_of language)) as [d|] eqn:Hc;
    [apply (repeat_own page language st); [congruence | exact Hload]|].
  destruct (embedded page language) as [d|] eqn:He;
    [apply (repeat_own page language st); [congruence | exact Hload]|].
  destruct (fetch page (url_of page language)) as [r|] eqn:Hf;
    [|apply (repeat_own page language st); [congruence | exact Hload]].
  destruct (ok r) eqn:Hok;
    [apply (repeat_own page language st); [congruence | exact Hload]|].
  destruct (decide (language = "en")) as [Hen|Hne];
    [apply (repeat_own page language st); [auto | exact Hload]|].
  (* the fallback *)
  rewrite loadContentData_step, Hc, He, Hf, Hok in Hload.
  rewrite bool_decide_eq_true_2 in Hload by exact Hne.
  assert (Hmiss' : if_truthy (contentCache st' !! cacheKey_of language) = None).
  { destruct (load_en_cache _ _ _ _ Hload) as [->|(d & _ & ->)]; [exact Hc|].
    rewrite lookup_insert_ne; [exact Hc|].
    intros E. apply Hne. symmetry in E. now apply cacheKey_of_en. }
  destruct (repeat_own page "en" _ o st' (fun _ _ _ _ _ => eq_refl) Hload)
    as (s2 & Hagain & Hs2).
  destruct (cache_decides 2 page "en" st' (log_fetch (url_of page language) st') o s2
              eq_refl Hagain) as (st'' & Hfinal & Hcache).
  exists st''. rewrite loadContentData_step, Hmiss', He, Hf, Hok.
  rewrite bool_decide_eq_true_2 by exact Hne.
  split; [exact Hfinal | congruence].
Qed.

Lemma repeated_call_same_outcome_witness :
  exists st'',
    loadContentData english_only_page "es"
      (store "content-en" example_document (log_fetch "/assets/data/es.json" fresh))
    = Some (Returned example_document, st'').
Proof.
  destruct (repeated_call_same_outcome english_only_page "es" fresh
              (Returned example_document)
              (store "content-en" example_document (log_fetch "/assets/data/es.json" fresh)))
    as (st'' & H & _).
  - reflexivity.
  - exists st''. exact H.
Defined.

(** What a call on ['en'] returns is in the cache afterwards. *)
Lemma load_en_returned_cached page st data st' :
  loadContentData page "en" st = Some (Returned data, st') ->
  truthy data = true ->
  contentCache st' !! cacheKey_of "en" = Some data.
Proof.
  rewrite loadContentData_step.
  destruct (if_truthy _) as [d|] eqn:Hc.
  { intros [= <- <-] _. now apply if_truthy_Some in Hc. }
  destruct (embedded _ _); [intros [= <- <-] _; apply lookup_insert_eq|].
  destruct (fetch _ _) as [r|]; [|discriminate].
  destruct (ok r).
  - destruct (json r); [|discriminate]. intros [= <- <-] _. apply lookup_insert_eq.
  - rewrite bool_decide_eq_false_2 by (intros H; now apply H). discriminate.
Qed.

(** A fallback pays for English once: when a call that went through the
    fallback returns a truthy document, that document is in the cache
    under ['content-en'], and a later [loadContentData('en')], on any
    page, returns it and leaves the state as it is. *)
Theorem fallback_caches_english (page : Page) (language : string) (st : State)
    (data : Value) (st' : State) :
  falls_back page language st ->
  loadContentData page language st = Some (Returned data, st') ->
  truthy data = true ->
  contentCache st' !! cacheKey_of "en" = Some data /\
  forall page', loadContentData page' "en" st' = Some (Returned data, st').
Proof.
  intros (Hmiss & (He & r & Hf & Hok) & Hne) Hload Htruthy.
  unfold cache_miss in Hmiss.
  rewrite loadContentData_step, Hmiss, He, Hf, Hok in Hload.
  rewrite bool_decide_eq_true_2 in Hload by exact Hne.
  pose proof (load_en_returned_cached _ _ _ _ Hload Htruthy) as Hentry.
  split; [exact Hentry|]. intros page'.
  rewrite loadContentData_step, Hentry. cbn. now rewrite Htruthy.
Qed.

Lemma fallback_caches_english_witness :
  loadContentData offline_page "en"
    (store "content-en" example_document (log_fetch "/assets/data/es.json" fresh))
  = Some (Returned example_document,
          store "content-en" example_document (log_fetch "/assets/data/es.json" fresh)).
Proof.
  apply (fallback_caches_english english_only_page "es" fresh example_document).
  - split; [reflexivity|]. split; [|discriminate].
    split; [reflexivity|]. eexists. split; reflexivity.
  - reflexivity.
  - reflexivity.
Defined.

End LoaderMore.
